(** * google-meet-rec-mover: recording sets, scanning and relocation

    A shallow embedding of [src/google_meet_rec_mover/cli.py] (classes
    [RecordingSet] and [RecordingScanner]) and of
    [src/google_meet_rec_mover/gdoc_converter.py] (class [GdocConverter]),
    followed by the properties of the specification that concern them.

    Python values are represented as follows:
    - a [str] is the list of its Unicode code points;
    - a [pathlib.Path] is the list of its components;
    - [None] is [None] of an [option];
    - the file system, the Google Drive service and the [logging] module are
      reached through an explicit world and an emitted list of log records;
    - a raised exception is the outcome [Raised]. *)

From Stdlib Require Import Strings.String Strings.Ascii.
From Stdlib Require Import List Bool Arith NArith ZArith Lia.
From Stdlib Require Import Sorting.Sorted Sorting.Permutation.
Import ListNotations.

(* ================================================================== *)
(** * Python strings *)
(* ================================================================== *)

(** A Python [str]: a sequence of code points. *)
Definition str := list N.

(** Literals are written as UTF-8 text and decoded to code points. *)
Fixpoint bytes_of_string (s : string) : list N :=
  match s with
  | EmptyString => []
  | String a r => N_of_ascii a :: bytes_of_string r
  end.

Fixpoint utf8_decode (bs : list N) : str :=
  match bs with
  | [] => []
  | b0 :: r0 =>
    if (b0 <? 0x80)%N then b0 :: utf8_decode r0
    else match r0 with
    | [] => [b0]
    | b1 :: r1 =>
      if (b0 <? 0xE0)%N
      then ((b0 - 0xC0) * 0x40 + (b1 - 0x80))%N :: utf8_decode r1
      else match r1 with
      | [] => [b0; b1]
      | b2 :: r2 =>
        if (b0 <? 0xF0)%N
        then ((b0 - 0xE0) * 0x1000 + (b1 - 0x80) * 0x40 + (b2 - 0x80))%N
             :: utf8_decode r2
        else match r2 with
        | [] => [b0; b1; b2]
        | b3 :: r3 =>
          ((b0 - 0xF0) * 0x40000 + (b1 - 0x80) * 0x1000
           + (b2 - 0x80) * 0x40 + (b3 - 0x80))%N :: utf8_decode r3
        end
      end
    end
  end.

Definition py (s : string) : str := utf8_decode (bytes_of_string s).

(** [a == b] on strings. *)
Fixpoint str_eqb (a b : str) : bool :=
  match a, b with
  | [], [] => true
  | x :: a', y :: b' => (x =? y)%N && str_eqb a' b'
  | _, _ => false
  end.

(** [a < b], [a == b], [a > b] on strings: code point by code point, a
    proper prefix being smaller. *)
Fixpoint str_compare (a b : str) : comparison :=
  match a, b with
  | [], [] => Eq
  | [], _ :: _ => Lt
  | _ :: _, [] => Gt
  | x :: a', y :: b' =>
    match (x ?= y)%N with
    | Eq => str_compare a' b'
    | c => c
    end
  end.

Definition str_ltb (a b : str) : bool :=
  match str_compare a b with Lt => true | _ => false end.

(** [s.startswith(p)]. *)
Fixpoint startswith (p s : str) : bool :=
  match p, s with
  | [], _ => true
  | _ :: _, [] => false
  | x :: p', y :: s' => (x =? y)%N && startswith p' s'
  end.

(** [needle in hay]. *)
Fixpoint contains (needle hay : str) : bool :=
  startswith needle hay ||
  match hay with
  | [] => false
  | _ :: hay' => contains needle hay'
  end.

(** [str.isspace] of one character, which is also the class [\s] of [re]
    on [str] patterns. *)
Definition is_space (c : N) : bool :=
  ((0x09 <=? c) && (c <=? 0x0D) || (0x1C <=? c) && (c <=? 0x20)
   || (c =? 0x85) || (c =? 0xA0) || (c =? 0x1680)
   || (0x2000 <=? c) && (c <=? 0x200A)
   || (c =? 0x2028) || (c =? 0x2029) || (c =? 0x202F) || (c =? 0x205F)
   || (c =? 0x3000))%N.

Fixpoint lstrip (s : str) : str :=
  match s with
  | c :: s' => if is_space c then lstrip s' else s
  | [] => []
  end.

(** [s.strip()]. *)
Definition strip (s : str) : str := rev (lstrip (rev (lstrip s))).

(** [s.lower()], on the letters A to Z.  The program only compares lowered
    text with [".mp4"], [".gdoc"], [".txt"] and ["chat"]; no character
    outside A to Z lowers to one of the characters of these four words, so
    the comparisons come out as in Python. *)
Definition lower_char (c : N) : N :=
  if ((0x41 <=? c) && (c <=? 0x5A))%N then (c + 0x20)%N else c.

Definition lower (s : str) : str := map lower_char s.

(* ================================================================== *)
(** * pathlib *)
(* ================================================================== *)

(** A [Path] is the list of its components; [Path('.')] is the empty list. *)
Definition Path := list str.

Module pathlib.

(** [p.name]: the final component, [''] when there is none. *)
Definition name (p : Path) : str := last p [].

(** [p / child]. *)
Definition joinpath (p : Path) (child : str) : Path := p ++ [child].

Definition DOT : N := 0x2E.

(** [s.rfind('.')]. *)
Fixpoint rfind_dot (s : str) : option nat :=
  match s with
  | [] => None
  | c :: s' =>
    match rfind_dot s' with
    | Some i => Some (S i)
    | None => if (c =? DOT)%N then Some 0 else None
    end
  end.

(** [p.suffix], on the name. *)
Definition name_suffix (n : str) : str :=
  match rfind_dot n with
  | Some i => if (0 <? i) && (i <? length n - 1) then skipn i n else []
  | None => []
  end.

Definition suffix (p : Path) : str := name_suffix (name p).

(** [p.with_suffix(sfx)] for a well-formed [sfx] (the program passes
    ['.mp4'] and ['.docx']); [None] stands for the [ValueError] raised on
    a path with an empty name. *)
Definition with_suffix (p : Path) (sfx : str) : option Path :=
  let n := name p in
  match n with
  | [] => None
  | _ =>
    let old := name_suffix n in
    let n' := match old with
              | [] => n ++ sfx
              | _ => firstn (length n - length old) n ++ sfx
              end in
    Some (removelast p ++ [n'])
  end.

Definition path_eqb (p q : Path) : bool :=
  (length p =? length q) && forallb (fun ab => str_eqb (fst ab) (snd ab)) (combine p q).

(** [p < q]: component by component. *)
Fixpoint path_ltb (p q : Path) : bool :=
  match p, q with
  | [], [] => false
  | [], _ :: _ => true
  | _ :: _, [] => false
  | a :: p', b :: q' =>
    match str_compare a b with
    | Lt => true
    | Gt => false
    | Eq => path_ltb p' q'
    end
  end.

End pathlib.

(* ================================================================== *)
(** * datetime *)
(* ================================================================== *)

(** A naive [datetime] with the fields the program sets (seconds and
    microseconds are always zero). *)
Record datetime := mk_datetime
  { year : N; month : N; day : N; hour : N; minute : N }.

Definition is_leap (y : N) : bool :=
  ((y mod 4 =? 0) && (negb (y mod 100 =? 0) || (y mod 400 =? 0)))%N.

Definition days_in_month (y m : N) : N :=
  match m with
  | 1 | 3 | 5 | 7 | 8 | 10 | 12 => 31
  | 4 | 6 | 9 | 11 => 30
  | 2 => if is_leap y then 29 else 28
  | _ => 0
  end%N.

(** [datetime(year, month, day, hour, minute)]; [None] stands for the
    [ValueError] raised on a field out of range. *)
Definition datetime_new (y m d h mi : N) : option datetime :=
  if ((1 <=? y) && (y <=? 9999) && (1 <=? m) && (m <=? 12)
      && (1 <=? d) && (d <=? days_in_month y m)
      && (h <=? 23) && (mi <=? 59))%N
  then Some (mk_datetime y m d h mi)
  else None.

(** [width] decimal digits of [n], zero padded. *)
Fixpoint zero_padded (width : nat) (n : N) : str :=
  match width with
  | O => []
  | S w => zero_padded w (n / 10) ++ [(0x30 + n mod 10)%N]
  end.

(** [dt.strftime("%Y%m%d")], the year on four digits. *)
Definition strftime_Ymd (dt : datetime) : str :=
  zero_padded 4 (year dt) ++ zero_padded 2 (month dt) ++ zero_padded 2 (day dt).

(** Days from 1970-01-01 to a date of the proleptic Gregorian calendar. *)
Definition days_from_civil (y m d : Z) : Z :=
  (let y' := if m <=? 2 then y - 1 else y in
   let era := y' / 400 in
   let yoe := y' - era * 400 in
   let doy := (153 * (if m <=? 2 then m + 9 else m - 3) + 2) / 5 + d - 1 in
   let doe := yoe * 365 + yoe / 4 - yoe / 100 + doy in
   era * 146097 + doe - 719468)%Z.

(** [dt.timestamp()] when the local time zone is UTC. *)
Definition timestamp_utc (dt : datetime) : Z :=
  (((days_from_civil (Z.of_N (year dt)) (Z.of_N (month dt)) (Z.of_N (day dt))
     * 24 + Z.of_N (hour dt)) * 60 + Z.of_N (minute dt)) * 60)%Z.

(** The decimal value of the characters 0 to 9. *)
Definition ascii_decimal (c : N) : option N :=
  if ((0x30 <=? c) && (c <=? 0x39))%N then Some (c - 0x30)%N else None.

(** A Python [float] as far as the program uses one: the whole numbers that
    [timestamp()] returns for a date with no seconds (far below 2^53, so
    held exactly), and the two infinities. *)
Inductive float := NegInf | Finite (z : Z) | PosInf.

Definition float_neg (x : float) : float :=
  match x with
  | NegInf => PosInf
  | Finite z => Finite (- z)
  | PosInf => NegInf
  end.

Definition float_ltb (x y : float) : bool :=
  match x, y with
  | NegInf, NegInf => false
  | NegInf, _ => true
  | Finite _, NegInf => false
  | Finite a, Finite b => (a <? b)%Z
  | Finite _, PosInf => true
  | PosInf, _ => false
  end.

Definition float_eqb (x y : float) : bool :=
  match x, y with
  | NegInf, NegInf => true
  | Finite a, Finite b => (a =? b)%Z
  | PosInf, PosInf => true
  | _, _ => false
  end.

(* ================================================================== *)
(** * logging *)
(* ================================================================== *)

(** The three kinds of file of a recording set (the labels of the list
    [files_to_move]). *)
Inductive Role := Video | Transcript | Chat.

Inductive Level := DEBUG | INFO | WARNING | ERROR.

(** One constructor per call of [logger]; the text of a caught exception is
    left out. *)
Inductive Event :=
  | DateParseFailed (prefix : str)                  (* cli.py l.62, warning *)
  | AddingExtension (src dst : Path)                (* l.93, info *)
  | AddExtensionFailed                              (* l.98, error *)
  | TranscriptConversionRaised                      (* l.117, error *)
  | ConvertingTranscript (p : Path)                 (* l.145, info *)
  | TranscriptConversionFailed                      (* l.152, error *)
  | Moving (r : Role) (src dst : Path)              (* l.169, info *)
  | MoveFailed (r : Role)                           (* l.172, error *)
  | DeletingGdoc (p : Path)                         (* l.178, info *)
  | DeleteGdocFailed                                (* l.181, error *)
  | SourceDirMissing (d : Path)                     (* l.260, error *)
  | ScannedCount (n : nat)                          (* l.265, debug *)
  | ScannedFiles (fs : list Path)                   (* l.266, debug *)
  | GdocParseFailed                                 (* gdoc_converter.py l.56, error *)
  | FileIdMissing (p : Path)                        (* l.70, error *)
  | DownloadProgress (percent : N)                  (* l.86, debug *)
  | Converted (src dst : Path)                      (* l.88, info *)
  | ExportFailed.                                   (* l.92, error *)

Definition level (e : Event) : Level :=
  match e with
  | DateParseFailed _ => WARNING
  | AddingExtension _ _ | ConvertingTranscript _ | Moving _ _ _
  | DeletingGdoc _ | Converted _ _ => INFO
  | ScannedCount _ | ScannedFiles _ | DownloadProgress _ => DEBUG
  | _ => ERROR
  end.

(** A diagnostic is a record at warning level or above. *)
Definition is_diagnostic (e : Event) : bool :=
  match level e with
  | WARNING | ERROR => true
  | _ => false
  end.

(* ================================================================== *)
(** * The environment of a run *)
(* ================================================================== *)

(** What the program reaches outside its own code.  An operation that can
    raise returns [false] (or [None]) when it raised; the world it returns
    is the one the failed call left behind. *)
Class Env := {
  World : Type;
  (** the decimal value of a character of Unicode category Nd, which is
      what [\d] of [re] matches and [int] reads *)
  unicode_decimal : N -> option N;
  (** [datetime.timestamp], in the local time zone *)
  timestamp : datetime -> Z;
  (** [Path.exists], [Path.glob("*")], [Path.mkdir(parents=True)],
      [Path.rename], [shutil.move], [Path.unlink] *)
  fs_exists : Path -> World -> bool;
  fs_glob : Path -> World -> list Path;
  fs_mkdir : Path -> World -> World * bool;
  fs_rename : Path -> Path -> World -> World * bool;
  fs_move : Path -> Path -> World -> World * bool;
  fs_unlink : Path -> World -> World * bool;
  (** [GdocConverter._authenticate]: token cache, OAuth flow, [build] *)
  gdrive_authenticate : World -> World * bool;
  (** [json.load(open(p))] followed by [.get('doc_id')]: [None] when it
      raised, else the value found ([None] when the key is absent) *)
  gdoc_doc_id : Path -> World -> World * option (option str);
  (** [export_media], [io.FileIO] and the download loop of
      [convert_to_docx]: the progress values logged, and whether it
      completed without raising *)
  gdrive_export : str -> Path -> World -> World * list N * bool
}.

(* ================================================================== *)
(** * A monad for world, log and exceptions *)
(* ================================================================== *)

Inductive Outcome (A : Type) := Ok (a : A) | Raised.
Arguments Ok {A} a.
Arguments Raised {A}.

Section Monad.
Context `{Env}.

Definition M (A : Type) : Type := World -> Outcome A * World * list Event.

Definition ret {A} (a : A) : M A := fun w => (Ok a, w, []).

Definition bind {A B} (m : M A) (f : A -> M B) : M B :=
  fun w =>
    match m w with
    | (Ok a, w1, l1) =>
      match f a w1 with
      | (r, w2, l2) => (r, w2, l1 ++ l2)
      end
    | (Raised, w1, l1) => (Raised, w1, l1)
    end.

Definition raise {A} : M A := fun w => (Raised, w, []).

(** [logger.debug/info/warning/error]. *)
Definition log (e : Event) : M unit := fun w => (Ok tt, w, [e]).

(** [try: m  except Exception: h]. *)
Definition try_except {A} (m h : M A) : M A :=
  fun w =>
    match m w with
    | (Ok a, w1, l1) => (Ok a, w1, l1)
    | (Raised, w1, l1) =>
      match h w1 with
      | (r, w2, l2) => (r, w2, l1 ++ l2)
      end
    end.

(** A call that reads the world. *)
Definition ask {A} (f : World -> A) : M A := fun w => (Ok (f w), w, []).

(** A call that changes the world and may raise. *)
Definition call (op : World -> World * bool) : M unit :=
  fun w =>
    match op w with
    | (w1, true) => (Ok tt, w1, [])
    | (w1, false) => (Raised, w1, [])
    end.

(** A value whose computation may raise. *)
Definition of_option {A} (o : option A) : M A :=
  match o with
  | Some a => ret a
  | None => raise
  end.

End Monad.

Notation "x <- m ;; k" := (bind m (fun x => k))
  (at level 61, m at next level, right associativity).
Notation "' p <- m ;; k" := (bind m (fun x => let 'p := x in k))
  (at level 61, p pattern, m at next level, right associativity).
Notation "m ;; k" := (bind m (fun _ => k))
  (at level 61, right associativity).

(* ================================================================== *)
(** * The two regular expressions *)
(* ================================================================== *)

Definition NEWLINE : N := 0x0A.
Definition COLON : N := 0x3A.
Definition SLASH : N := 0x2F.

Section Regex.
Context `{Env}.

(** [\d{n}] at the start of [s]: the number read so far ([int] of the
    group once it is complete) and the text that follows. *)
Fixpoint re_digits (n : nat) (acc : N) (s : str) : option (N * str) :=
  match n with
  | O => Some (acc, s)
  | S n' =>
    match s with
    | c :: s' =>
      match unicode_decimal c with
      | Some v => re_digits n' (acc * 10 + v)%N s'
      | None => None
      end
    | [] => None
    end
  end.

(** [\s+] at the start of [s].  A digit follows in the pattern and no
    character is both a space and a digit, so the only way to match is to
    take the whole run of spaces. *)
Definition re_spaces (s : str) : option str :=
  match s with
  | c :: s' => if is_space c then Some (lstrip s') else None
  | [] => None
  end.

(** [[:/]] at the start of [s]. *)
Definition re_separator (s : str) : option str :=
  match s with
  | c :: s' => if ((c =? COLON) || (c =? SLASH))%N then Some s' else None
  | [] => None
  end.

(** [(\d{4})\s+(\d{2})\s+(\d{2})\s+(\d{2})[:/](\d{2})] at the start of
    [s]: the five groups, through [int]. *)
Definition match_date (s : str) : option (N * N * N * N * N) :=
  match re_digits 4 0 s with
  | None => None
  | Some (y, s1) =>
  match re_spaces s1 with
  | None => None
  | Some s2 =>
  match re_digits 2 0 s2 with
  | None => None
  | Some (mo, s3) =>
  match re_spaces s3 with
  | None => None
  | Some s4 =>
  match re_digits 2 0 s4 with
  | None => None
  | Some (d, s5) =>
  match re_spaces s5 with
  | None => None
  | Some s6 =>
  match re_digits 2 0 s6 with
  | None => None
  | Some (h, s7) =>
  match re_separator s7 with
  | None => None
  | Some s8 =>
  match re_digits 2 0 s8 with
  | None => None
  | Some (mi, _) => Some (y, mo, d, h, mi)
  end end end end end end end end end.

(** [re.search(date_pattern, s)]: the match that starts first. *)
Fixpoint search_date (s : str) : option (N * N * N * N * N) :=
  match match_date s with
  | Some g => Some g
  | None =>
    match s with
    | [] => None
    | _ :: s' => search_date s'
    end
  end.

Definition RECORDING_MARKER : str := py "～Recording".
Definition CHAT_MARKER : str := py "～Chat".

(** [(?:～Recording|～Chat)] at the start of [s]. *)
Definition at_marker (s : str) : bool :=
  startswith RECORDING_MARKER s || startswith CHAT_MARKER s.

(** [(.*?)(?:～Recording|～Chat)] at the start of [s]: the group.  The
    lazy star stops at the first marker; [.] does not match a newline. *)
Fixpoint dots_until_marker (s : str) : option str :=
  if at_marker s then Some []
  else
    match s with
    | [] => None
    | c :: s' =>
      if (c =? NEWLINE)%N then None
      else option_map (cons c) (dots_until_marker s')
    end.

(** [(.+?)(?:～Recording|～Chat)] at the start of [s]: group 1. *)
Definition match_prefix (s : str) : option str :=
  match s with
  | [] => None
  | c :: s' =>
    if (c =? NEWLINE)%N then None
    else option_map (cons c) (dots_until_marker s')
  end.

(** [re.search(r'(.+?)(?:～Recording|～Chat)', s)]: group 1 of the match
    that starts first. *)
Fixpoint search_prefix (s : str) : option str :=
  match match_prefix s with
  | Some g => Some g
  | None =>
    match s with
    | [] => None
    | _ :: s' => search_prefix s'
    end
  end.

End Regex.

(* ================================================================== *)
(** * class GdocConverter *)
(* ================================================================== *)

Module GdocConverter.
Section GdocConverter.
Context `{Env}.

(** [GdocConverter()]: [__init__] runs [_authenticate]. *)
Definition init : M unit := call gdrive_authenticate.

(** [extract_file_id]. *)
Definition extract_file_id (gdoc_path : Path) : M (option str) :=
  fun w =>
    match gdoc_doc_id gdoc_path w with
    | (w1, Some v) => (Ok v, w1, [])
    | (w1, None) => (Ok None, w1, [GdocParseFailed])
    end.

(** [convert_to_docx(gdoc_path)], [output_path] left to its default. *)
Definition convert_to_docx (gdoc_path : Path) : M (option Path) :=
  output_path <- of_option (pathlib.with_suffix gdoc_path (py ".docx")) ;;
  file_id <- extract_file_id gdoc_path ;;
  match file_id with
  | None | Some [] =>
    log (FileIdMissing gdoc_path) ;; ret None
  | Some id =>
    try_except
      (fun w =>
         match gdrive_export id output_path w with
         | (w1, progress, true) =>
           (Ok (Some output_path), w1,
            map DownloadProgress progress ++ [Converted gdoc_path output_path])
         | (w1, progress, false) =>
           (Raised, w1, map DownloadProgress progress)
         end)
      (log ExportFailed ;; ret None)
  end.

End GdocConverter.
End GdocConverter.

(* ================================================================== *)
(** * class RecordingSet *)
(* ================================================================== *)

Module RecordingSet.

Record t := mk
  { prefix : str;
    video_path : option Path;
    transcript_path : option Path;
    chat_path : option Path;
    date : option datetime }.

Definition set_date (self : t) (d : option datetime) : t :=
  mk (prefix self) (video_path self) (transcript_path self) (chat_path self) d.

Definition set_video_path (self : t) (p : option Path) : t :=
  mk (prefix self) p (transcript_path self) (chat_path self) (date self).

Definition set_transcript_path (self : t) (p : option Path) : t :=
  mk (prefix self) (video_path self) p (chat_path self) (date self).

(** [path.suffix.lower() == ext]. *)
Definition has_suffix (ext : string) (p : Path) : bool :=
  str_eqb (lower (pathlib.suffix p)) (py ext).

Section RecordingSet.
Context `{Env}.

Definition extract_date_from_prefix (self : t) : M t :=
  match search_date (prefix self) with
  | Some (y, mo, d, h, mi) =>
    match datetime_new y mo d h mi with
    | Some dt => ret (set_date self (Some dt))
    | None =>
      log (DateParseFailed (prefix self)) ;;
      ret (set_date self None)
    end
  | None => ret self
  end.

(** [RecordingSet(prefix, video_path, transcript_path, chat_path, date)]. *)
Definition init (prefix : str) (video_path transcript_path chat_path : option Path)
    (date : option datetime) : M t :=
  let self := mk prefix video_path transcript_path chat_path date in
  match date with
  | None => extract_date_from_prefix self
  | Some _ => ret self
  end.

Definition is_complete (self : t) : bool :=
  match video_path self with
  | Some _ => true
  | None => false
  end.

(** [', '.join(parts)]. *)
Fixpoint join (sep : str) (parts : list str) : str :=
  match parts with
  | [] => []
  | [p] => p
  | p :: rest => p ++ sep ++ join sep rest
  end.

Definition get_status (self : t) : str :=
  let parts :=
    match video_path self with Some _ => [py "動画"] | None => [] end
    ++ match transcript_path self with Some _ => [py "議事録"] | None => [] end
    ++ match chat_path self with Some _ => [py "チャット"] | None => [] end in
  py "[" ++ join (py ", ") parts ++ py "]".

(** Returns the object after the call and the value returned. *)
Definition ensure_video_extension (self : t) : M (t * option Path) :=
  match video_path self with
  | None => ret (self, None)
  | Some video =>
    if has_suffix ".mp4" video then ret (self, Some video)
    else
      new_path <- of_option (pathlib.with_suffix video (py ".mp4")) ;;
      try_except
        (log (AddingExtension video new_path) ;;
         call (fs_rename video new_path) ;;
         ret (set_video_path self (Some new_path), Some new_path))
        (log AddExtensionFailed ;;
         ret (self, Some video))
  end.

(** Returns the object after the call and the value returned. *)
Definition convert_transcript_to_docx (self : t) : M (t * option Path) :=
  match transcript_path self with
  | None => ret (self, None)
  | Some transcript =>
    if negb (has_suffix ".gdoc" transcript) then ret (self, None)
    else
      try_except
        (GdocConverter.init ;;
         docx_path <- GdocConverter.convert_to_docx transcript ;;
         match docx_path with
         | Some docx =>
           present <- ask (fs_exists docx) ;;
           if present
           then ret (set_transcript_path self (Some docx), Some docx)
           else ret (self, None)
         | None => ret (self, None)
         end)
        (log TranscriptConversionRaised ;;
         ret (self, None))
  end.

Definition UNKNOWN_DATE : str := py "unknown_date".

(** The two [mkdir] blocks that open [move_to]; returns [date_dir]. *)
Definition make_date_dir (self : t) (destination : Path) : M Path :=
  present <- ask (fs_exists destination) ;;
  (if present then ret tt else call (fs_mkdir destination)) ;;
  let date_str :=
    match date self with
    | Some d => strftime_Ymd d
    | None => UNKNOWN_DATE
    end in
  let date_dir := pathlib.joinpath destination date_str in
  present <- ask (fs_exists date_dir) ;;
  (if present then ret tt else call (fs_mkdir date_dir)) ;;
  ret date_dir.

(** The block "議事録が.gdocの場合は.docxに変換": the object, the value
    of [original_gdoc_path] and the value of [success] after it. *)
Definition convert_step (self : t) (success : bool)
    : M (t * option Path * bool) :=
  match transcript_path self with
  | Some transcript =>
    if has_suffix ".gdoc" transcript then
      log (ConvertingTranscript transcript) ;;
      '(self', docx_path) <- convert_transcript_to_docx self ;;
      match docx_path with
      | Some _ => ret (self', Some transcript, success)
      | None =>
        log TranscriptConversionFailed ;;
        ret (self', Some transcript, false)
      end
    else ret (self, None, success)
  | None => ret (self, None, success)
  end.

Definition files_to_move (self : t) : list (Role * Path) :=
  match video_path self with Some p => [(Video, p)] | None => [] end
  ++ match transcript_path self with Some p => [(Transcript, p)] | None => [] end
  ++ match chat_path self with Some p => [(Chat, p)] | None => [] end.

(** The loop over [files_to_move]; returns [success]. *)
Fixpoint move_files (date_dir : Path) (files : list (Role * Path))
    (success : bool) : M bool :=
  match files with
  | [] => ret success
  | (file_type, source_path) :: rest =>
    success' <-
      try_except
        (let target_path := pathlib.joinpath date_dir (pathlib.name source_path) in
         log (Moving file_type source_path target_path) ;;
         call (fs_move source_path target_path) ;;
         ret success)
        (log (MoveFailed file_type) ;;
         ret false) ;;
    move_files date_dir rest success'
  end.

(** The block "元の.gdocファイルを削除". *)
Definition cleanup (original_gdoc_path : option Path) (success : bool) : M unit :=
  match original_gdoc_path with
  | Some gdoc =>
    if success then
      try_except
        (log (DeletingGdoc gdoc) ;;
         call (fs_unlink gdoc))
        (log DeleteGdocFailed)
    else ret tt
  | None => ret tt
  end.

(** Returns the value returned and the object after the call. *)
Definition move_to (self : t) (destination : Path) : M (bool * t) :=
  date_dir <- make_date_dir self destination ;;
  let success := true in
  self1 <- match video_path self with
           | Some _ => '(s, _) <- ensure_video_extension self ;; ret s
           | None => ret self
           end ;;
  '(self2, original_gdoc_path, success) <- convert_step self1 success ;;
  success <- move_files date_dir (files_to_move self2) success ;;
  cleanup original_gdoc_path success ;;
  ret (success, self2).

End RecordingSet.
End RecordingSet.

(* ================================================================== *)
(** * class RecordingScanner *)
(* ================================================================== *)

Module RecordingScanner.

(** A [set] of strings, listed in the order of first insertion. *)
Definition set_add (x : str) (s : list str) : list str :=
  if existsb (str_eqb x) s then s else s ++ [x].

(** A [dict] from strings, in insertion order: [d[k] = v]. *)
Fixpoint dict_set {V} (k : str) (v : V) (d : list (str * V)) : list (str * V) :=
  match d with
  | [] => [(k, v)]
  | (k', v') :: d' =>
    if str_eqb k k' then (k', v) :: d' else (k', v') :: dict_set k v d'
  end.

(** The values of [video_path], [transcript_path] and [chat_path] in the
    inner loop of [_group_files_into_sets]. *)
Definition Roles : Type := option Path * option Path * option Path.

(** One turn of the inner loop. *)
Definition assign (prefix : str) (roles : Roles) (file_path : Path) : Roles :=
  let '(video_path, transcript_path, chat_path) := roles in
  let name := pathlib.name file_path in
  if contains prefix name then
    if RecordingSet.has_suffix ".mp4" file_path || contains (py "Recording") name
    then (Some file_path, transcript_path, chat_path)
    else if RecordingSet.has_suffix ".gdoc" file_path
            || contains (py "Gemini によるメモ") name
    then (video_path, Some file_path, chat_path)
    else if RecordingSet.has_suffix ".txt" file_path && contains (py "chat") (lower name)
            || contains (py "Chat") name
    then (video_path, transcript_path, Some file_path)
    else roles
  else roles.

Section RecordingScanner.
Context `{Env}.

Definition _extract_prefix (filename : str) : option str :=
  option_map strip (search_prefix filename).

(** The first loop of [_group_files_into_sets]. *)
Definition collect_prefixes (files : list Path) : list str :=
  fold_left
    (fun prefixes file_path =>
       match _extract_prefix (pathlib.name file_path) with
       | Some ((_ :: _) as prefix) => set_add prefix prefixes
       | _ => prefixes
       end)
    files [].

(** The second loop, over [prefixes]. *)
Fixpoint build_sets (files : list Path) (prefixes : list str)
    (recording_map : list (str * RecordingSet.t))
    : M (list (str * RecordingSet.t)) :=
  match prefixes with
  | [] => ret recording_map
  | prefix :: rest =>
    let '(video_path, transcript_path, chat_path) :=
      fold_left (assign prefix) files (None, None, None) in
    recording_set <-
      RecordingSet.init prefix video_path transcript_path chat_path None ;;
    build_sets files rest
      (if RecordingSet.is_complete recording_set
       then dict_set prefix recording_set recording_map
       else recording_map)
  end.

Definition _group_files_into_sets (files : list Path) : M (list RecordingSet.t) :=
  recording_map <- build_sets files (collect_prefixes files) [] ;;
  ret (map snd recording_map).

(** The key of the sort in [scan]. *)
Definition sort_key (x : RecordingSet.t) : float * str :=
  (float_neg (match RecordingSet.date x with
              | Some d => Finite (timestamp d)
              | None => NegInf
              end),
   RecordingSet.prefix x).

(** [a < b] on the keys, as tuples compare. *)
Definition key_ltb (a b : float * str) : bool :=
  if float_eqb (fst a) (fst b) then str_ltb (snd a) (snd b)
  else float_ltb (fst a) (fst b).

(** [list.sort(key=...)] is a stable sort: an element is placed before
    the first one whose key is not smaller than its own. *)
Fixpoint insert_sorted (x : RecordingSet.t) (l : list RecordingSet.t)
    : list RecordingSet.t :=
  match l with
  | [] => [x]
  | y :: l' =>
    if key_ltb (sort_key y) (sort_key x) then y :: insert_sorted x l'
    else x :: l
  end.

Definition sort (l : list RecordingSet.t) : list RecordingSet.t :=
  fold_right insert_sorted [] l.

Definition scan (source_dir : Path) : M (list RecordingSet.t) :=
  present <- ask (fs_exists source_dir) ;;
  if negb present then
    log (SourceDirMissing source_dir) ;;
    ret []
  else
    all_files <- ask (fs_glob source_dir) ;;
    log (ScannedCount (length all_files)) ;;
    log (ScannedFiles all_files) ;;
    recording_sets <- _group_files_into_sets all_files ;;
    ret (sort recording_sets).

End RecordingScanner.
End RecordingScanner.

(* ================================================================== *)
(** * A small file system, to run the program on examples *)
(* ================================================================== *)

Module Sim.

(** The entries that exist, the entries no operation may touch (each
    attempt raises [PermissionError]), the document id stored in each
    [.gdoc] file, and whether the Drive service answers. *)
Record world := mk_world
  { entries : list Path;
    locked : list Path;
    doc_ids : list (Path * str);
    online : bool }.

Definition mem (p : Path) (l : list Path) : bool := existsb (pathlib.path_eqb p) l.

Definition remove (p : Path) (l : list Path) : list Path :=
  filter (fun q => negb (pathlib.path_eqb p q)) l.

Definition with_entries (w : world) (l : list Path) : world :=
  mk_world l (locked w) (doc_ids w) (online w).

Definition exists_ (p : Path) (w : world) : bool := mem p (entries w).

Definition glob (d : Path) (w : world) : list Path :=
  filter (fun p => pathlib.path_eqb (removelast p) d && negb (pathlib.path_eqb p [])) (entries w).

Definition mkdir (p : Path) (w : world) : world * bool :=
  if mem p (locked w) || mem p (entries w) then (w, false)
  else (with_entries w (entries w ++ [p]), true).

Definition move (src dst : Path) (w : world) : world * bool :=
  if mem src (entries w) && negb (mem src (locked w)) && negb (mem dst (locked w))
  then (with_entries w (remove src (entries w) ++ [dst]), true)
  else (w, false).

Definition unlink (p : Path) (w : world) : world * bool :=
  if mem p (entries w) && negb (mem p (locked w))
  then (with_entries w (remove p (entries w)), true)
  else (w, false).

Fixpoint lookup (p : Path) (l : list (Path * str)) : option str :=
  match l with
  | [] => None
  | (q, v) :: l' => if pathlib.path_eqb p q then Some v else lookup p l'
  end.

Definition doc_id (p : Path) (w : world) : world * option (option str) :=
  if mem p (entries w) then (w, Some (lookup p (doc_ids w))) else (w, None).

Definition export (id : str) (out : Path) (w : world) : world * list N * bool :=
  if online w && negb (mem out (locked w))
  then (with_entries w (remove out (entries w) ++ [out]), [100%N], true)
  else (w, [], false).

(** Digits 0 to 9 only, and UTC as the local time zone. *)
Definition env : Env :=
  {| World := world;
     unicode_decimal := ascii_decimal;
     timestamp := timestamp_utc;
     fs_exists := exists_;
     fs_glob := glob;
     fs_mkdir := mkdir;
     fs_rename := move;
     fs_move := move;
     fs_unlink := unlink;
     gdrive_authenticate := fun w => (w, online w);
     gdoc_doc_id := doc_id;
     gdrive_export := export |}.

(** A source directory [Meet] holding the given file names, a
    destination [Box] that exists, and a working Drive service. *)
Definition MEET : Path := [py "Meet"].
Definition BOX : Path := [py "Box"].

Definition meet (names : list string) : list Path :=
  map (fun n => pathlib.joinpath MEET (py n)) names.

Definition disk (names : list string) : world :=
  mk_world (MEET :: BOX :: meet names) []
           (map (fun p => (p, py "doc-1")) (meet names)) true.

End Sim.

(* ================================================================== *)
(** * Worlds and sets of the examples *)
(* ================================================================== *)

Module Examples.

Definition lock (w : Sim.world) (l : list Path) : Sim.world :=
  Sim.mk_world (Sim.entries w) l (Sim.doc_ids w) (Sim.online w).

Definition offline (w : Sim.world) : Sim.world :=
  Sim.mk_world (Sim.entries w) (Sim.locked w) (Sim.doc_ids w) false.

Definition in_meet (n : string) : Path := pathlib.joinpath Sim.MEET (py n).

(** Scenario 1 and 4 of the specification: a video and a chat log. *)
Definition session_a_disk : Sim.world :=
  Sim.disk ["Session A～Recording.mp4"%string; "Session A～Chat.txt"%string].

Definition session_a : RecordingSet.t :=
  RecordingSet.mk (py "Session A")
    (Some (in_meet "Session A～Recording.mp4")) None
    (Some (in_meet "Session A～Chat.txt")) None.

(** Scenario 3: a video and a transcript in the native document format. *)
Definition weekly_disk : Sim.world :=
  Sim.disk ["Weekly～Recording"%string; "Weekly～Gemini によるメモ.gdoc"%string].

Definition weekly_gdoc : Path := in_meet "Weekly～Gemini によるメモ.gdoc".

Definition weekly : RecordingSet.t :=
  RecordingSet.mk (py "Weekly")
    (Some (in_meet "Weekly～Recording")) (Some weekly_gdoc) None None.

(** Two videos that both contain the identity ["S"]. *)
Definition take_1 : Path := in_meet "S～Recording (1).mp4".
Definition take_0 : Path := in_meet "S～Recording.mp4".

(** A video of identity ["AB"] and a chat log of identity ["A"]. *)
Definition ab_video : Path := in_meet "AB～Recording.mp4".
Definition a_chat : Path := in_meet "A～Chat.txt".

(** The directories [Meet] and [Box], both empty. *)
Definition empty_disk : Sim.world := Sim.disk [].

(** A directory that [Sim.disk] does not hold. *)
Definition NOWHERE : Path := [py "Nowhere"].


End Examples.

(* ================================================================== *)
(** * Notions used in the statements *)
(* ================================================================== *)

Section Notions.
Context `{Env}.
Import RecordingSet RecordingScanner.

(** The key of [a] is not greater than the key of [b]. *)
Definition key_le (a b : t) : Prop :=
  key_ltb (sort_key b) (sort_key a) = false.

(** The order of the specification: a later timestamp first; at equal
    timestamps the smaller identity first; a set with no timestamp after
    every set that has one, and among such sets the smaller identity
    first. *)
Definition comes_first (a b : t) : Prop :=
  match date a, date b with
  | Some ta, Some tb =>
    (timestamp tb < timestamp ta)%Z
    \/ (timestamp ta = timestamp tb /\ str_compare (prefix a) (prefix b) = Lt)
  | Some _, None => True
  | None, Some _ => False
  | None, None => str_compare (prefix a) (prefix b) = Lt
  end.

Definition NO_ROLES : Roles := (None, None, None).

(** The roles the inner loop assigns for [prefix]. *)
Definition roles_of (files : list Path) (prefix : str) : Roles :=
  fold_left (assign prefix) files NO_ROLES.

Definition member (r : Role) (roles : Roles) : option Path :=
  match r, roles with
  | Video, (v, _, _) => v
  | Transcript, (_, t, _) => t
  | Chat, (_, _, c) => c
  end.

(** The same, read off a set. *)
Definition member_of (r : Role) (s : t) : option Path :=
  member r (video_path s, transcript_path s, chat_path s).

(** The date the constructor finds in a prefix, and what it logs. *)
Definition date_of (prefix : str) : option datetime :=
  match search_date prefix with
  | Some (y, mo, d, h, mi) => datetime_new y mo d h mi
  | None => None
  end.

Definition date_log (prefix : str) : list Event :=
  match search_date prefix with
  | Some (y, mo, d, h, mi) =>
    match datetime_new y mo d h mi with
    | Some _ => []
    | None => [DateParseFailed prefix]
    end
  | None => []
  end.

(** The set built for a prefix. *)
Definition set_of (files : list Path) (p : str) : t :=
  let '(v, tr, c) := roles_of files p in mk p v tr c (date_of p).

Fixpoint build_pure (files : list Path) (prefixes : list str)
    (d : list (str * t)) : list (str * t) :=
  match prefixes with
  | [] => d
  | p :: rest =>
    build_pure files rest
      (if is_complete (set_of files p) then dict_set p (set_of files p) d else d)
  end.

(** What holds of the dictionary [recording_map] all along. *)
Definition dict_ok (files : list Path) (d : list (str * t)) : Prop :=
  NoDup (map fst d)
  /\ Forall (fun kv => snd kv = set_of files (fst kv)
                       /\ is_complete (snd kv) = true) d.

(** The sets [_group_files_into_sets] returns. *)
Definition grouped (files : list Path) : list t :=
  map snd (build_pure files (collect_prefixes files) []).

(** The three tests of the inner loop, in the order the [if]/[elif]
    chain tries them. *)
Definition classify (file_path : Path) : option Role :=
  let name := pathlib.name file_path in
  if has_suffix ".mp4" file_path || contains (py "Recording") name
  then Some Video
  else if has_suffix ".gdoc" file_path || contains (py "Gemini によるメモ") name
  then Some Transcript
  else if has_suffix ".txt" file_path && contains (py "chat") (lower name)
          || contains (py "Chat") name
  then Some Chat
  else None.

Definition role_eqb (a b : Role) : bool :=
  match a, b with
  | Video, Video | Transcript, Transcript | Chat, Chat => true
  | _, _ => false
  end.

(** [file_path] qualifies for role [r] of the set of [prefix]. *)
Definition qualifies (prefix : str) (r : Role) (file_path : Path) : bool :=
  contains prefix (pathlib.name file_path)
  && match classify file_path with
     | Some r' => role_eqb r r'
     | None => false
     end.

(** The last file of the scan that qualifies, [None] if none does. *)
Definition last_qualifying (prefix : str) (r : Role) (files : list Path)
    : option Path :=
  last (map Some (filter (qualifies prefix r) files)) None.

(** The sets of the prefixes that have a video, in the order of [ps]. *)
Definition complete_sets (files : list Path) (ps : list str) : list t :=
  map (set_of files) (filter (fun p => is_complete (set_of files p)) ps).










(** The part of [move_to] that emits a record. *)
Inductive Stage := Scanning | Preparing | Converting | Relocating | Cleaning.

Definition stage (e : Event) : Stage :=
  match e with
  | DateParseFailed _ | SourceDirMissing _ | ScannedCount _ | ScannedFiles _ =>
    Scanning
  | AddingExtension _ _ | AddExtensionFailed => Preparing
  | Moving _ _ _ | MoveFailed _ => Relocating
  | DeletingGdoc _ | DeleteGdocFailed => Cleaning
  | _ => Converting
  end.

(** The moves announced in a log, and the roles whose move failed. *)
Definition move_attempts (l : list Event) : list (Role * Path * Path) :=
  flat_map (fun e => match e with Moving r s d => [(r, s, d)] | _ => [] end) l.

Definition move_failures (l : list Event) : list Role :=
  flat_map (fun e => match e with MoveFailed r => [r] | _ => [] end) l.

(** Up to the conversion: the directories and the extension of the
    video. *)
Definition prepare (self : t) (destination : Path) : M (Path * t) :=
  date_dir <- make_date_dir self destination ;;
  self1 <- match video_path self with
           | Some _ => '(s, _) <- ensure_video_extension self ;; ret s
           | None => ret self
           end ;;
  ret (date_dir, self1).

(** From the conversion on. *)
Definition relocate (date_dir : Path) (self1 : t) : M (bool * t) :=
  '(self2, original_gdoc_path, success) <- convert_step self1 true ;;
  success <- move_files date_dir (files_to_move self2) success ;;
  cleanup original_gdoc_path success ;;
  ret (success, self2).

(** What the [try] block of [convert_transcript_to_docx] asks of the
    converter. *)
Definition converter_call (transcript : Path) : M (option Path) :=
  GdocConverter.init ;; GdocConverter.convert_to_docx transcript.

(** The file the converter leaves for [transcript] in world [w]: [None]
    when it fails, that is when it raises, returns [None], or returns a
    path at which no file exists. *)
Definition converted (transcript : Path) (w : World) : option Path :=
  match converter_call transcript w with
  | (Ok (Some docx), w2, _) => if fs_exists docx w2 then Some docx else None
  | _ => None
  end.

(** Whether [move_to] converts the transcript of [self]. *)
Definition conversion_runs (self : t) : bool :=
  match transcript_path self with
  | Some transcript => has_suffix ".gdoc" transcript
  | None => false
  end.

(** The conversion does not run, or it runs and succeeds. *)
Definition conversion_ok (self : t) (w : World) : bool :=
  match transcript_path self with
  | Some transcript =>
    if has_suffix ".gdoc" transcript
    then match converted transcript w with Some _ => true | None => false end
    else true
  | None => true
  end.

(** The records of [convert_transcript_to_docx] and of the converter:
    neither of the two that [move_to] itself writes around the call. *)
Definition converter_event (e : Event) : Prop :=
  stage e = Converting
  /\ e <> TranscriptConversionFailed
  /\ forall p, e <> ConvertingTranscript p.

(** The object, [original_gdoc_path] and [success] after the conversion
    block of [move_to]. *)
Definition conversion_outcome (self : t) (success : bool) (w : World)
    : t * option Path * bool :=
  match transcript_path self with
  | Some transcript =>
    if has_suffix ".gdoc" transcript then
      match converted transcript w with
      | Some docx =>
        (set_transcript_path self (Some docx), Some transcript, success)
      | None => (self, Some transcript, false)
      end
    else (self, None, success)
  | None => (self, None, success)
  end.

(** [date_dir / source_path.name]. *)
Definition target (date_dir source_path : Path) : Path :=
  pathlib.joinpath date_dir (pathlib.name source_path).

(** The members of a set that are present, in the order video,
    transcript, chat. *)
Definition present_members (s : t) : list (Role * Path) :=
  flat_map (fun r => match member_of r s with
                     | Some p => [(r, p)]
                     | None => []
                     end)
           [Video; Transcript; Chat].

(** Whether each call of [shutil.move] of the loop returns, the calls
    being made one after the other from world [w]. *)
Fixpoint move_results (date_dir : Path) (files : list (Role * Path))
    (w : World) : list bool :=
  match files with
  | [] => []
  | (_, p) :: rest =>
    let '(w1, ok) := fs_move p (target date_dir p) w in
    ok :: move_results date_dir rest w1
  end.

(** The roles of the moves that raised. *)
Definition failed_roles (files : list (Role * Path)) (results : list bool)
    : list Role :=
  map fst (filter (fun x => negb (snd x)) (combine (map fst files) results)).

(** The world in which the loop of moves starts. *)
Definition world_after_conversion (self1 : t) (w1 : World) : World :=
  snd (fst (convert_step self1 true w1)).

End Notions.

(* ================================================================== *)
(** * Further notions *)
(* ================================================================== *)

Section MoreNotions.
Context `{Env}.
Import RecordingSet RecordingScanner.

(** [g] occurs in [s]. *)
Definition occurs_in (g s : str) : Prop :=
  exists pre post, s = pre ++ g ++ post.

(** [s] neither starts nor ends with a space. *)
Definition stripped (s : str) : Prop :=
  lstrip s = s /\ lstrip (rev s) = rev s.

(** The name of the folder of a set under the destination. *)
Definition date_folder (self : t) : str :=
  match date self with
  | Some d => strftime_Ymd d
  | None => UNKNOWN_DATE
  end.

(** The fields of a date are those of a day and a minute that exist. *)
Definition calendar_date (dt : datetime) : Prop :=
  (1 <= year dt <= 9999 /\ 1 <= month dt <= 12
   /\ 1 <= day dt <= days_in_month (year dt) (month dt)
   /\ hour dt <= 23 /\ minute dt <= 59)%N.

(** Which members of a set are present. *)
Definition presence (self : t) : bool * bool * bool :=
  (is_complete self,
   match transcript_path self with Some _ => true | None => false end,
   match chat_path self with Some _ => true | None => false end).

End MoreNotions.

Module MoreExamples.

(** Two sets of the same day and the dates they carry. *)
Definition morning : datetime := mk_datetime 2024 5 1 10 30.
Definition evening : datetime := mk_datetime 2024 5 1 18 0.

Definition morning_set : RecordingSet.t :=
  RecordingSet.mk (py "Standup 2024 05 01 10:30") None None None (Some morning).

Definition evening_set : RecordingSet.t :=
  RecordingSet.mk (py "Review 2024 05 01 18:00") None None None (Some evening).

(** A file with neither marker. *)
Definition plain_name : str := py "notes.txt".

End MoreExamples.

(* ================================================================== *)
(** * class Config *)
(* ================================================================== *)

(** A value of a parsed TOML file, as far as [Config.load] tells values
    apart: a string, a table, or anything else. *)
#[warnings="-register-all"]
Inductive toml :=
  | TStr (s : str)
  | TTable (items : list (str * toml))
  | TOther.

(** What [Config] reaches outside its own code. *)
Class ConfigEnv := {
  CWorld : Type;
  (** [os.path.expanduser] of a string, and [Path] of a string *)
  expanduser : str -> str;
  path_of_str : str -> Path;
  (** [config_path.exists()] *)
  config_exists : Path -> CWorld -> bool;
  (** [open(config_path, "rb")] and [tomllib.load]: the top-level table,
      [None] when either raised *)
  toml_load : Path -> CWorld -> CWorld * option (list (str * toml));
  (** [config_path.parent.mkdir(parents=True, exist_ok=True)] *)
  mkdir_parent : Path -> CWorld -> CWorld * bool;
  (** [open(config_path, "w")] and the write of the default text *)
  write_default : Path -> CWorld -> CWorld * bool
}.

(** The records that [Config] logs. *)
Inductive ConfigEvent :=
  | ConfigNotFound (p : Path)                  (* cli.py l.206, warning *)
  | ConfigLoadFailed                           (* l.225, error *)
  | DefaultConfigCreated (p : Path).           (* l.248, info *)

Module Config.

Record t := mk
  { config_path : Path;
    source_dir : Path;
    destinations : list (str * Path) }.

Definition set_source_dir (self : t) (p : Path) : t :=
  mk (config_path self) p (destinations self).

Definition set_destinations (self : t) (d : list (str * Path)) : t :=
  mk (config_path self) (source_dir self) d.

(** [d.get(k)] on a dictionary in insertion order. *)
Fixpoint dict_get {V} (k : str) (d : list (str * V)) : option V :=
  match d with
  | [] => None
  | (k', v) :: d' => if str_eqb k k' then Some v else dict_get k d'
  end.

Section Config.
Context `{ConfigEnv}.

Definition Result (A : Type) : Type := Outcome A * CWorld * list ConfigEvent.

Definition DEFAULT_SOURCE_DIR : str :=
  expanduser
    (py "~/Library/CloudStorage/GoogleDrive-sho.nakatani@secdevlab.com/マイドライブ/Meet Recordings").

(** The dictionary comprehension of [load]; [None] when [expanduser]
    raises on a value that is not a string. *)
Fixpoint read_destinations (items : list (str * toml))
    : option (list (str * Path)) :=
  match items with
  | [] => Some []
  | (name, TStr path) :: rest =>
    option_map (cons (name, path_of_str (expanduser path)))
               (read_destinations rest)
  | _ => None
  end.

Definition _create_default_config (self : t) (w : CWorld) : Result unit :=
  match mkdir_parent (config_path self) w with
  | (w1, false) => (Raised, w1, [])
  | (w1, true) =>
    match write_default (config_path self) w1 with
    | (w2, false) => (Raised, w2, [])
    | (w2, true) => (Ok tt, w2, [DefaultConfigCreated (config_path self)])
    end
  end.

(** Returns the value returned and the object after the call. *)
Definition load (self : t) (w : CWorld) : Result (bool * t) :=
  if negb (config_exists (config_path self) w) then
    match _create_default_config self w with
    | (Ok _, w1, l) =>
      (Ok (false, self), w1, ConfigNotFound (config_path self) :: l)
    | (Raised, w1, l) =>
      (Raised, w1, ConfigNotFound (config_path self) :: l)
    end
  else
    match toml_load (config_path self) w with
    | (w1, None) => (Ok (false, self), w1, [ConfigLoadFailed])
    | (w1, Some config_data) =>
      match dict_get (py "source_dir") config_data with
      | Some TOther | Some (TTable _) =>
        (Ok (false, self), w1, [ConfigLoadFailed])
      | source =>
        let self1 :=
          match source with
          | Some (TStr v) => set_source_dir self (path_of_str (expanduser v))
          | _ => self
          end in
        match dict_get (py "destinations") config_data with
        | None => (Ok (true, self1), w1, [])
        | Some (TTable items) =>
          match read_destinations items with
          | Some d => (Ok (true, set_destinations self1 d), w1, [])
          | None => (Ok (false, self1), w1, [ConfigLoadFailed])
          end
        | Some _ => (Ok (false, self1), w1, [ConfigLoadFailed])
        end
      end
    end.

(** [Config(config_path)]. *)
Definition init (config_path : str) (w : CWorld) : Result t :=
  let self := mk (path_of_str config_path) (path_of_str DEFAULT_SOURCE_DIR) [] in
  match load self w with
  | (Ok (_, self'), w1, l) => (Ok self', w1, l)
  | (Raised, w1, l) => (Raised, w1, l)
  end.

End Config.
End Config.

(** A configuration directory for the examples: whether the file is there,
    what it parses to, and whether the directory can be written. *)
Module SimConfig.

Record world := mk_world
  { present : bool;
    parsed : option (list (str * toml));
    writable : bool }.

Definition config_env : ConfigEnv :=
  {| CWorld := world;
     expanduser := fun s => s;
     path_of_str := fun s => [s];
     config_exists := fun _ w => present w;
     toml_load := fun _ w => (w, parsed w);
     mkdir_parent := fun _ w => (w, writable w);
     write_default := fun _ w =>
       if writable w then (mk_world true (parsed w) true, true) else (w, false) |}.

(** A file with a good [source_dir] and a [destinations] that is a string. *)
Definition half_good : world :=
  mk_world true
    (Some [(py "source_dir", TStr (py "/data/meet"));
           (py "destinations", TStr (py "/data/out"))])
    true.

Definition start : Config.t :=
  Config.mk [py "conf.toml"] [py "default"] [].

(** The first run: no file yet, in a directory that can be written. *)
Definition first_run : world := mk_world false None true.

End SimConfig.

(* ================================================================== *)
(** * Strings: equality and order *)
(* ================================================================== *)

Lemma str_eqb_eq (a b : str) : str_eqb a b = true <-> a = b.
Proof.
  revert b; induction a as [|x a IH]; intros [|y b]; simpl; split;
    try congruence; try reflexivity.
  - intros E. apply andb_true_iff in E as [E1 E2].
    apply N.eqb_eq in E1. apply IH in E2. congruence.
  - intros E. injection E as -> ->. rewrite N.eqb_refl. now apply IH.
Qed.

Lemma str_eqb_refl (a : str) : str_eqb a a = true.
Proof. now apply str_eqb_eq. Qed.

Lemma str_eqb_neq (a b : str) : str_eqb a b = false <-> a <> b.
Proof.
  rewrite <- str_eqb_eq. destruct (str_eqb a b); split; congruence.
Qed.

Lemma str_compare_eq (a b : str) : str_compare a b = Eq <-> a = b.
Proof.
  revert b; induction a as [|x a IH]; intros [|y b]; simpl; split;
    try congruence; try reflexivity.
  - destruct (N.compare_spec x y) as [-> | L | L]; try discriminate.
    intros E. apply IH in E. congruence.
  - intros E. injection E as -> ->. rewrite N.compare_refl. now apply IH.
Qed.

Lemma str_compare_antisym (a b : str) :
  str_compare b a = CompOpp (str_compare a b).
Proof.
  revert b; induction a as [|x a IH]; intros [|y b]; simpl; try reflexivity.
  rewrite (N.compare_antisym x y).
  destruct (x ?= y)%N; simpl; auto.
Qed.

Lemma str_compare_trans (a b c : str) :
  str_compare a b = Lt -> str_compare b c = Lt -> str_compare a c = Lt.
Proof.
  revert b c; induction a as [|x a IH]; intros [|y b] [|z c]; simpl;
    try congruence.
  destruct (N.compare_spec x y) as [-> | L1 | L1]; try discriminate.
  - destruct (N.compare_spec y z) as [-> | L2 | L2]; try discriminate; eauto.
  - destruct (N.compare_spec y z) as [-> | L2 | L2]; try discriminate; intros _ _.
    + destruct (N.compare_spec x z); try lia; reflexivity.
    + destruct (N.compare_spec x z); try lia; reflexivity.
Qed.

Lemma str_ltb_irrefl (a : str) : str_ltb a a = false.
Proof.
  unfold str_ltb. now rewrite (proj2 (str_compare_eq a a) eq_refl).
Qed.

Lemma str_ltb_trans (a b c : str) :
  str_ltb a b = true -> str_ltb b c = true -> str_ltb a c = true.
Proof.
  unfold str_ltb. intros A B.
  destruct (str_compare a b) eqn:E1; try discriminate.
  destruct (str_compare b c) eqn:E2; try discriminate.
  now rewrite (str_compare_trans _ _ _ E1 E2).
Qed.

Lemma str_ltb_total (a b : str) :
  a <> b -> str_ltb a b = true \/ str_ltb b a = true.
Proof.
  unfold str_ltb. intros N. rewrite (str_compare_antisym a b).
  destruct (str_compare a b) eqn:E; simpl; auto.
  apply str_compare_eq in E. contradiction.
Qed.

(* ================================================================== *)
(** * Floats and sort keys *)
(* ================================================================== *)

Lemma float_eqb_eq (x y : float) : float_eqb x y = true <-> x = y.
Proof.
  destruct x, y; simpl; split; try congruence; try reflexivity.
  - intros E. apply Z.eqb_eq in E. congruence.
  - intros E. injection E as ->. apply Z.eqb_refl.
Qed.

Lemma float_ltb_irrefl (x : float) : float_ltb x x = false.
Proof. destruct x; simpl; auto. apply Z.ltb_irrefl. Qed.

Lemma float_ltb_trans (x y z : float) :
  float_ltb x y = true -> float_ltb y z = true -> float_ltb x z = true.
Proof.
  destruct x, y, z; simpl; try congruence.
  rewrite !Z.ltb_lt. lia.
Qed.

Lemma float_ltb_total (x y : float) :
  x <> y -> float_ltb x y = true \/ float_ltb y x = true.
Proof.
  destruct x, y; simpl; auto; try congruence.
  intros N. rewrite !Z.ltb_lt.
  destruct (Z.lt_trichotomy z z0) as [L | [L | L]]; auto.
  subst. congruence.
Qed.

Lemma float_neg_inj (x y : float) : float_neg x = float_neg y -> x = y.
Proof. destruct x, y; simpl; try congruence. intros E. f_equal. injection E. lia. Qed.

Section Keys.
Import RecordingScanner.

Lemma key_ltb_irrefl (a : float * str) : key_ltb a a = false.
Proof.
  unfold key_ltb. rewrite (proj2 (float_eqb_eq _ _) eq_refl).
  apply str_ltb_irrefl.
Qed.

Lemma key_ltb_trans (a b c : float * str) :
  key_ltb a b = true -> key_ltb b c = true -> key_ltb a c = true.
Proof.
  unfold key_ltb. destruct a as [fa sa], b as [fb sb], c as [fc sc]; simpl.
  destruct (float_eqb fa fb) eqn:E1.
  - apply float_eqb_eq in E1; subst fb.
    destruct (float_eqb fa fc) eqn:E2; auto. apply str_ltb_trans.
  - destruct (float_eqb fb fc) eqn:E2.
    + apply float_eqb_eq in E2; subst fc. rewrite E1. auto.
    + intros A B. pose proof (float_ltb_trans _ _ _ A B) as C.
      destruct (float_eqb fa fc) eqn:E3; auto.
      apply float_eqb_eq in E3; subst fc.
      now rewrite float_ltb_irrefl in C.
Qed.

Lemma key_ltb_total (a b : float * str) :
  snd a <> snd b -> key_ltb a b = true \/ key_ltb b a = true.
Proof.
  unfold key_ltb. destruct a as [fa sa], b as [fb sb]; simpl. intros N.
  destruct (float_eqb fa fb) eqn:E1.
  - apply float_eqb_eq in E1; subst fb.
    rewrite (proj2 (float_eqb_eq _ _) eq_refl). now apply str_ltb_total.
  - destruct (float_eqb fb fa) eqn:E2.
    + apply float_eqb_eq in E2; subst fb.
      now rewrite (proj2 (float_eqb_eq _ _) eq_refl) in E1.
    + apply float_ltb_total. intros ->.
      now rewrite (proj2 (float_eqb_eq _ _) eq_refl) in E1.
Qed.

(** Two keys neither of which is smaller than the other are equal. *)
Lemma key_ltb_tie (a b : float * str) :
  key_ltb a b = false -> key_ltb b a = false -> a = b.
Proof.
  destruct a as [fa sa], b as [fb sb]. intros A B.
  destruct (list_eq_dec N.eq_dec sa sb) as [-> | N].
  - unfold key_ltb in A, B; simpl in *.
    destruct (float_eqb fa fb) eqn:E1.
    + apply float_eqb_eq in E1. congruence.
    + destruct (float_eqb fb fa) eqn:E2.
      * apply float_eqb_eq in E2. congruence.
      * destruct (float_ltb_total fa fb); try congruence.
        intros ->. now rewrite (proj2 (float_eqb_eq _ _) eq_refl) in E1.
  - destruct (key_ltb_total (fa, sa) (fb, sb) N); congruence.
Qed.

End Keys.

(* ================================================================== *)
(** * The sort of [scan] *)
(* ================================================================== *)

Section Sorting.
Context `{Env}.
Import RecordingSet RecordingScanner.

Lemma key_le_trans (a b c : t) : key_le a b -> key_le b c -> key_le a c.
Proof.
  unfold key_le. intros A B.
  destruct (key_ltb (sort_key c) (sort_key a)) eqn:C; auto.
  destruct (key_ltb (sort_key b) (sort_key c)) eqn:D.
  - now rewrite (key_ltb_trans _ _ _ D C) in A.
  - rewrite (key_ltb_tie _ _ B D) in C. congruence.
Qed.

Lemma key_ltb_asym (a b : float * str) :
  key_ltb a b = true -> key_ltb b a = false.
Proof.
  intros A. destruct (key_ltb b a) eqn:B; auto.
  pose proof (key_ltb_trans _ _ _ A B) as C.
  now rewrite key_ltb_irrefl in C.
Qed.

Lemma insert_sorted_perm (x : t) (l : list t) :
  Permutation (x :: l) (insert_sorted x l).
Proof.
  induction l as [|y l IH]; simpl; auto.
  destruct (key_ltb (sort_key y) (sort_key x)); auto.
  rewrite perm_swap. now constructor.
Qed.

Lemma sort_perm (l : list t) : Permutation l (sort l).
Proof.
  induction l as [|x l IH]; simpl; auto.
  rewrite <- insert_sorted_perm. now constructor.
Qed.

Lemma insert_sorted_sorted (x : t) (l : list t) :
  StronglySorted key_le l -> StronglySorted key_le (insert_sorted x l).
Proof.
  induction 1 as [|y l S IH F]; simpl.
  - repeat constructor.
  - destruct (key_ltb (sort_key y) (sort_key x)) eqn:E.
    + constructor; auto.
      rewrite <- insert_sorted_perm. constructor; auto.
      now apply key_ltb_asym.
    + constructor; [now constructor|].
      constructor; auto.
      eapply Forall_impl; [|exact F].
      intros z. now apply key_le_trans.
Qed.

Lemma sort_sorted (l : list t) : StronglySorted key_le (sort l).
Proof.
  induction l as [|x l IH]; simpl.
  - constructor.
  - now apply insert_sorted_sorted.
Qed.

Lemma key_ltb_comes_first (a b : t) :
  key_ltb (sort_key a) (sort_key b) = true <-> comes_first a b.
Proof.
  unfold key_ltb, sort_key, comes_first, str_ltb; simpl.
  destruct (date a) as [ta|], (date b) as [tb|]; simpl.
  - destruct (Z.eqb_spec (- timestamp ta) (- timestamp tb)) as [E|E].
    + destruct (str_compare (prefix a) (prefix b)); split;
        try discriminate; try reflexivity.
      * intros [L | [_ L]]; [lia | discriminate].
      * intros _. right. split; [lia | reflexivity].
      * intros [L | [_ L]]; [lia | discriminate].
    + rewrite Z.ltb_lt. split; [lia|].
      intros [L | [L _]]; lia.
  - tauto.
  - split; [discriminate | tauto].
  - destruct (str_compare (prefix a) (prefix b)); split; congruence.
Qed.

Lemma comes_first_irrefl (a : t) : ~ comes_first a a.
Proof.
  rewrite <- key_ltb_comes_first, key_ltb_irrefl. discriminate.
Qed.

Lemma comes_first_trans (a b c : t) :
  comes_first a b -> comes_first b c -> comes_first a c.
Proof. rewrite <- !key_ltb_comes_first. apply key_ltb_trans. Qed.

Lemma comes_first_total (a b : t) :
  prefix a <> prefix b -> comes_first a b \/ comes_first b a.
Proof. rewrite <- !key_ltb_comes_first. intros N. now apply key_ltb_total. Qed.

Lemma key_le_comes_first (a b : t) :
  key_le a b -> prefix a <> prefix b -> comes_first a b.
Proof.
  unfold key_le. intros L N.
  destruct (comes_first_total a b N) as [C | C]; auto.
  apply key_ltb_comes_first in C. congruence.
Qed.

Lemma sorted_distinct (l : list t) :
  StronglySorted key_le l -> NoDup (map prefix l) ->
  StronglySorted comes_first l.
Proof.
  induction 1 as [|x l S IH F]; simpl; intros D.
  - constructor.
  - inversion D as [|? ? NI D']; subst.
    constructor; auto.
    rewrite Forall_forall in F |- *. intros y I.
    apply key_le_comes_first; auto.
    intros E. apply NI. rewrite E. now apply in_map.
Qed.

Lemma sort_strongly_sorted (l : list t) :
  NoDup (map prefix l) -> StronglySorted comes_first (sort l).
Proof.
  intros D. apply sorted_distinct; [apply sort_sorted|].
  eapply Permutation_NoDup; [|exact D].
  apply Permutation_map, sort_perm.
Qed.

(** What the list is sorted from does not matter: two lists with the
    same sets, each identity once, sort to the same list.  The order in
    which Python walks the [set] of prefixes therefore has no effect on
    the result of [scan]. *)
Lemma sorted_unique (l1 l2 : list t) :
  Permutation l1 l2 ->
  StronglySorted comes_first l1 -> StronglySorted comes_first l2 ->
  l1 = l2.
Proof.
  revert l2. induction l1 as [|x l1 IH]; intros l2 P S1 S2.
  - apply Permutation_nil in P. now subst.
  - destruct l2 as [|y l2].
    + apply Permutation_sym, Permutation_nil in P. discriminate.
    + inversion S1 as [|? ? S1' F1]; inversion S2 as [|? ? S2' F2]; subst.
      assert (x = y) as ->.
      { assert (I1 : In x (y :: l2)) by (eapply Permutation_in; [exact P | now left]).
        assert (I2 : In y (x :: l1))
          by (eapply Permutation_in; [apply Permutation_sym; exact P | now left]).
        destruct I1 as [-> | I1]; auto.
        destruct I2 as [-> | I2]; auto.
        rewrite Forall_forall in F1, F2.
        exfalso. apply (comes_first_irrefl x).
        eapply comes_first_trans; [apply F1, I2 | apply F2, I1]. }
      f_equal. apply IH; auto.
      now apply Permutation_cons_inv in P.
Qed.

Lemma sort_order_independent (l1 l2 : list t) :
  Permutation l1 l2 -> NoDup (map prefix l1) -> sort l1 = sort l2.
Proof.
  intros P D. apply sorted_unique.
  - now rewrite <- !sort_perm.
  - now apply sort_strongly_sorted.
  - apply sort_strongly_sorted.
    eapply Permutation_NoDup; [|exact D]. now apply Permutation_map.
Qed.

End Sorting.

(* ================================================================== *)
(** * Grouping files into sets *)
(* ================================================================== *)

Lemma last_cons {A} (x d : A) (l : list A) : last (x :: l) d = last l x.
Proof.
  revert x d. induction l as [|y l IH]; intros x d; auto.
  change (last (x :: y :: l) d) with (last (y :: l) d).
  now rewrite (IH y d), (IH y x).
Qed.

Section Dict.
Import RecordingScanner.
Context {V : Type}.

Lemma dict_set_keys (k : str) (v : V) (d : list (str * V)) :
  map fst (dict_set k v d)
  = if existsb (str_eqb k) (map fst d) then map fst d else map fst d ++ [k].
Proof.
  induction d as [|[k' v'] d IH]; simpl; auto.
  destruct (str_eqb k k') eqn:E; simpl; auto.
  rewrite IH. destruct (existsb (str_eqb k) (map fst d)); auto.
Qed.

Lemma dict_set_in (k : str) (v : V) (d : list (str * V)) (kv : str * V) :
  In kv (dict_set k v d) -> In kv d \/ kv = (k, v).
Proof.
  induction d as [|[k' v'] d IH]; simpl.
  - intros [<- | []]. auto.
  - destruct (str_eqb k k') eqn:E; simpl.
    + apply str_eqb_eq in E; subst k'. intros [<- | I]; auto.
    + intros [<- | I]; auto. destruct (IH I); auto.
Qed.

Lemma dict_set_nodup (k : str) (v : V) (d : list (str * V)) :
  NoDup (map fst d) -> NoDup (map fst (dict_set k v d)).
Proof.
  intros D. rewrite dict_set_keys.
  destruct (existsb (str_eqb k) (map fst d)) eqn:E; auto.
  apply NoDup_app; auto.
  - repeat constructor. auto.
  - intros x I [E' | []]. subst x.
    assert (existsb (str_eqb k) (map fst d) = true); [|congruence].
    apply existsb_exists. exists k. split; auto. apply str_eqb_refl.
Qed.

End Dict.

Section Grouping.
Context `{Env}.
Import RecordingSet RecordingScanner.

Lemma extract_date_spec (p : str) (v tr c : option Path) (w : World) :
  extract_date_from_prefix (mk p v tr c None) w
  = (Ok (mk p v tr c (date_of p)), w, date_log p).
Proof.
  unfold extract_date_from_prefix, date_of, date_log; simpl.
  destruct (search_date p) as [[[[[y mo] d] h] mi]|]; auto.
  destruct (datetime_new y mo d h mi); auto.
Qed.


Lemma set_of_prefix (files : list Path) (p : str) : prefix (set_of files p) = p.
Proof. unfold set_of. now destruct (roles_of files p) as [[v tr] c]. Qed.

Lemma set_of_member (files : list Path) (p : str) (r : Role) :
  member_of r (set_of files p) = member r (roles_of files p).
Proof. unfold set_of, member_of. now destruct (roles_of files p) as [[v tr] c]. Qed.


Lemma build_sets_spec (files : list Path) (ps : list str) (d : list (str * t))
    (w : World) :
  build_sets files ps d w = (Ok (build_pure files ps d), w, flat_map date_log ps).
Proof.
  revert d. induction ps as [|p ps IH]; intros d; simpl; auto.
  unfold set_of, roles_of, NO_ROLES.
  destruct (fold_left (assign p) files (None, None, None)) as [[v tr] c].
  unfold bind. rewrite extract_date_spec, IH. reflexivity.
Qed.

Lemma build_pure_ok (files : list Path) (ps : list str) (d : list (str * t)) :
  dict_ok files d -> dict_ok files (build_pure files ps d).
Proof.
  revert d. induction ps as [|p ps IH]; intros d O; simpl; auto.
  apply IH. destruct (is_complete (set_of files p)) eqn:C; auto.
  destruct O as [D F]. split.
  - now apply dict_set_nodup.
  - rewrite Forall_forall in F |- *. intros kv I.
    destruct (dict_set_in _ _ _ _ I) as [I' | ->]; auto.
Qed.

Lemma group_spec (files : list Path) (w : World) :
  _group_files_into_sets files w
  = (Ok (grouped files), w, flat_map date_log (collect_prefixes files)).
Proof.
  unfold _group_files_into_sets, bind. rewrite build_sets_spec. simpl.
  now rewrite app_nil_r.
Qed.

Lemma grouped_sets (files : list Path) :
  Forall (fun s => s = set_of files (prefix s) /\ is_complete s = true)
         (grouped files).
Proof.
  destruct (build_pure_ok files (collect_prefixes files) []) as [_ F].
  { split; constructor. }
  unfold grouped. apply Forall_map. eapply Forall_impl; [|exact F].
  intros [k v] [E C]; simpl in *. split; auto.
  rewrite E at 2. now rewrite set_of_prefix.
Qed.


Lemma scan_spec (source_dir : Path) (w : World) :
  scan source_dir w
  = if fs_exists source_dir w
    then let files := fs_glob source_dir w in
         (Ok (sort (grouped files)), w,
          ScannedCount (length files) :: ScannedFiles files
            :: flat_map date_log (collect_prefixes files))
    else (Ok [], w, [SourceDirMissing source_dir]).
Proof.
  unfold scan, bind, ask, log, ret.
  destruct (fs_exists source_dir w); simpl; auto.
  rewrite group_spec. simpl. now rewrite app_nil_r.
Qed.

(** ** Classification *)

Lemma assign_qualifies (p : str) (v tr c : option Path) (f : Path) :
  assign p (v, tr, c) f
  = (if qualifies p Video f then Some f else v,
     if qualifies p Transcript f then Some f else tr,
     if qualifies p Chat f then Some f else c).
Proof.
  unfold assign, qualifies, classify.
  destruct (contains p (pathlib.name f)); cbn [andb]; auto.
  destruct (has_suffix ".mp4" f || contains (py "Recording") (pathlib.name f));
    cbn [role_eqb]; auto.
  destruct (has_suffix ".gdoc" f || contains (py "Gemini によるメモ") (pathlib.name f));
    cbn [role_eqb]; auto.
  destruct (has_suffix ".txt" f && contains (py "chat") (lower (pathlib.name f))
            || contains (py "Chat") (pathlib.name f));
    cbn [role_eqb]; auto.
Qed.

Lemma fold_assign_last (p : str) (files : list Path) (v tr c : option Path) :
  fold_left (assign p) files (v, tr, c)
  = (last (map Some (filter (qualifies p Video) files)) v,
     last (map Some (filter (qualifies p Transcript) files)) tr,
     last (map Some (filter (qualifies p Chat) files)) c).
Proof.
  revert v tr c. induction files as [|f files IH]; intros v tr c; auto.
  cbn [fold_left filter]. rewrite assign_qualifies, IH.
  destruct (qualifies p Video f), (qualifies p Transcript f),
    (qualifies p Chat f); cbn [map]; now rewrite ?last_cons.
Qed.

Lemma roles_of_last (files : list Path) (p : str) (r : Role) :
  member r (roles_of files p) = last_qualifying p r files.
Proof.
  unfold roles_of, NO_ROLES. rewrite fold_assign_last. now destruct r.
Qed.

Lemma last_some_in {A} (l : list A) (x : A) :
  last (map Some l) None = Some x -> In x l.
Proof.
  induction l as [|y l IH]; simpl; [discriminate|].
  destruct l as [|z l]; simpl in *.
  - intros E. injection E. auto.
  - auto.
Qed.


End Grouping.

(* ================================================================== *)
(** * The order in which the set of prefixes is walked *)
(* ================================================================== *)

Section SetOrder.
Context `{Env}.
Import RecordingSet RecordingScanner.

Lemma existsb_str_eqb (k : str) (l : list str) :
  existsb (str_eqb k) l = true <-> In k l.
Proof.
  rewrite existsb_exists. split.
  - intros (x & I & E). apply str_eqb_eq in E. now subst.
  - intros I. exists k. split; auto. apply str_eqb_refl.
Qed.

Lemma dict_set_fresh {V} (k : str) (v : V) (d : list (str * V)) :
  ~ In k (map fst d) -> dict_set k v d = d ++ [(k, v)].
Proof.
  induction d as [|[k' v'] d IH]; simpl; auto. intros N.
  destruct (str_eqb k k') eqn:E.
  - apply str_eqb_eq in E. subst. tauto.
  - rewrite IH; auto.
Qed.

Lemma set_add_nodup (x : str) (s : list str) : NoDup s -> NoDup (set_add x s).
Proof.
  intros D. unfold set_add. destruct (existsb (str_eqb x) s) eqn:E; auto.
  apply NoDup_app; auto.
  - repeat constructor. auto.
  - intros a I [<- | []]. apply existsb_str_eqb in I. congruence.
Qed.

Lemma collect_prefixes_nodup (files : list Path) : NoDup (collect_prefixes files).
Proof.
  unfold collect_prefixes.
  assert (G : forall acc, NoDup acc ->
              NoDup (fold_left
                       (fun prefixes file_path =>
                          match _extract_prefix (pathlib.name file_path) with
                          | Some ((_ :: _) as prefix) => set_add prefix prefixes
                          | _ => prefixes
                          end) files acc)).
  { induction files as [|f files IH]; intros acc D; simpl; auto.
    apply IH. destruct (_extract_prefix (pathlib.name f)) as [[|c p]|]; auto.
    now apply set_add_nodup. }
  apply G. constructor.
Qed.

Lemma build_pure_fresh (files : list Path) (ps : list str) (d : list (str * t)) :
  NoDup ps -> (forall p, In p ps -> ~ In p (map fst d)) ->
  map snd (build_pure files ps d) = map snd d ++ complete_sets files ps.
Proof.
  unfold complete_sets. revert d.
  induction ps as [|p ps IH]; intros d D F; simpl.
  - now rewrite app_nil_r.
  - inversion D as [|? ? NI D']; subst.
    destruct (is_complete (set_of files p)) eqn:C.
    + rewrite dict_set_fresh; [|apply F; now left].
      rewrite IH; auto.
      * rewrite map_app. simpl. now rewrite <- app_assoc.
      * intros q I. rewrite map_app, in_app_iff. simpl.
        intros [J | [<- | []]]; [|contradiction].
        apply (F q); [now right | exact J].
    + apply IH; auto. intros q I. apply F. now right.
Qed.

Lemma filter_permutation {A} (f : A -> bool) (l1 l2 : list A) :
  Permutation l1 l2 -> Permutation (filter f l1) (filter f l2).
Proof.
  induction 1 as [| x l1 l2 P IH | x y l | l1 l2 l3 P1 IH1 P2 IH2]; simpl.
  - constructor.
  - destruct (f x); auto.
  - destruct (f x), (f y); auto. constructor.
  - now rewrite IH1.
Qed.

(** Whatever the order in which the prefixes are walked, the sorted list
    is the same: the choice made in [set_add] for the order of a Python
    [set] does not show in the result of [scan]. *)
Lemma scan_any_set_order (files : list Path) (ps : list str) :
  Permutation (collect_prefixes files) ps ->
  sort (map snd (build_pure files ps [])) = sort (grouped files).
Proof.
  intros P. pose proof (collect_prefixes_nodup files) as D.
  assert (D' : NoDup ps) by (eapply Permutation_NoDup; eauto).
  unfold grouped. rewrite !build_pure_fresh; auto. simpl.
  apply sort_order_independent.
  - unfold complete_sets. apply Permutation_map, filter_permutation.
    now apply Permutation_sym.
  - unfold complete_sets. rewrite map_map.
    erewrite map_ext; [|intros p; apply set_of_prefix]. rewrite map_id.
    now apply NoDup_filter.
Qed.

End SetOrder.

(* ================================================================== *)
(** * Properties of the scan *)
(* ================================================================== *)

Section ScanProperties.
Context `{Env}.
Import RecordingSet RecordingScanner.

Lemma grouped_member (files : list Path) (s : t) (r : Role) :
  In s (grouped files) ->
  member_of r s = last_qualifying (prefix s) r files.
Proof.
  intros I. pose proof (grouped_sets files) as F.
  rewrite Forall_forall in F. destruct (F _ I) as [E _].
  rewrite E at 1. now rewrite set_of_member, roles_of_last.
Qed.




(** C3, as the program has it.  When several files qualify for a role of
    a set, the one met last in the scan fills the role, and nothing is
    logged about it: the only records the assembler emits are those of a
    date that could not be parsed. *)
Theorem role_conflict_last_seen_wins (files : list Path) (w : World) :
  exists sets log,
    _group_files_into_sets files w = (Ok sets, w, log)
    /\ Forall (fun s => forall r,
                   member_of r s = last_qualifying (prefix s) r files) sets
    /\ Forall (fun e => exists p, e = DateParseFailed p) log.
Proof.
  eexists _, _. split; [apply group_spec|]. split.
  - apply Forall_forall. intros s I r. now apply grouped_member.
  - apply Forall_forall. intros e I.
    apply in_flat_map in I as (p & _ & I). unfold date_log in I.
    destruct (search_date p) as [[[[[y mo] d] h] mi]|]; [|destruct I].
    destruct (datetime_new y mo d h mi); [destruct I|].
    destruct I as [<- | []]. eauto.
Qed.

(** C7, as the program has it.  On a source directory that does not
    exist the scan logs one error and returns the empty list; it does
    not raise, and the value it returns is the one it returns for a
    directory that exists and is empty. *)
Theorem scan_missing_source_returns_empty (source_dir : Path) (w : World) :
  fs_exists source_dir w = false ->
  scan source_dir w = (Ok [], w, [SourceDirMissing source_dir])
  /\ forall w', fs_exists source_dir w' = true ->
                fs_glob source_dir w' = [] ->
                fst (fst (scan source_dir w')) = fst (fst (scan source_dir w)).
Proof.
  intros E. rewrite !scan_spec, E. split; auto.
  intros w' E' G. rewrite scan_spec, E', G. reflexivity.
Qed.

Lemma last_qualifying_in (p : str) (r : Role) (files : list Path) (F : Path) :
  last_qualifying p r files = Some F ->
  In F files /\ contains p (pathlib.name F) = true /\ classify F = Some r.
Proof.
  intros L. apply last_some_in, filter_In in L as [I Q]. split; auto.
  unfold qualifies in Q. apply andb_true_iff in Q as [C R]. split; auto.
  destruct (classify F) as [r'|]; [|discriminate].
  destruct r, r'; try discriminate; reflexivity.
Qed.



End ScanProperties.

(* ================================================================== *)
(** * Extraction of the date *)
(* ================================================================== *)







Section DateExtraction.
Context `{Env}.
Import RecordingSet.







(** ** Separators *)








End DateExtraction.

(* ================================================================== *)
(** * Relocation of a set *)
(* ================================================================== *)




Lemma stage_in (l : list Event) (s : Stage) (e : Event) :
  Forall (fun e => stage e = s) l -> In e l -> stage e = s.
Proof. intros F I. rewrite Forall_forall in F. auto. Qed.

Section Relocation.
Context `{Env}.
Import RecordingSet.

Lemma bind_ok {A B} (m : M A) (f : A -> M B) (w w1 : World) (a : A)
    (l1 : list Event) :
  m w = (Ok a, w1, l1) ->
  bind m f w = (let '(r, w2, l2) := f a w1 in (r, w2, l1 ++ l2)).
Proof. unfold bind. now intros ->. Qed.

(** ** The stages of [move_to] *)

Lemma move_to_stages (self : t) (destination : Path) (w : World) :
  move_to self destination w
  = bind (prepare self destination)
         (fun ds => relocate (fst ds) (snd ds)) w.
Proof.
  unfold move_to, prepare, relocate, bind.
  destruct (make_date_dir self destination w) as [[[date_dir|] w0] l0]; auto.
  destruct (video_path self) as [video|];
    [destruct (ensure_video_extension self w0) as [[[[s r]|] wa] la]; auto|];
    simpl;
    match goal with
    | |- context [convert_step ?x true ?y] =>
      destruct (convert_step x true y) as [[[[[s2 g] b]|] wb] lb]
    end; simpl; rewrite ?app_nil_r, <- ?app_assoc; auto;
    destruct (move_files date_dir (files_to_move s2) b wb) as [[[b'|] wc] lc];
    simpl; rewrite ?app_nil_r, <- ?app_assoc; auto;
    destruct (cleanup g b' wc) as [[[[]|] wd] ld];
    simpl; rewrite ?app_nil_r, <- ?app_assoc; auto.
Qed.

(** The preparation leaves the transcript and the chat alone, and all
    it logs is about the extension. *)
Lemma prepare_spec (self self1 : t) (destination date_dir : Path)
    (w w1 : World) (l1 : list Event) :
  prepare self destination w = (Ok (date_dir, self1), w1, l1) ->
  transcript_path self1 = transcript_path self
  /\ chat_path self1 = chat_path self
  /\ (video_path self1 = None <-> video_path self = None)
  /\ Forall (fun e => stage e = Preparing) l1.
Proof.
  unfold prepare, make_date_dir, bind, ask, call, ret.
  destruct (fs_exists destination w); simpl.
  2: destruct (fs_mkdir destination w) as [wa []]; simpl; [|discriminate].
  all: match goal with
       | |- context [fs_exists ?d ?x] => destruct (fs_exists d x); simpl
       end.
  2, 4: match goal with
        | |- context [fs_mkdir ?d ?x] =>
          destruct (fs_mkdir d x) as [wb []]; simpl; [|discriminate]
        end.
  all: unfold ensure_video_extension, try_except, bind, of_option, log, call,
         ret, raise;
    destruct (video_path self) as [video|] eqn:V; simpl;
    [ destruct (has_suffix ".mp4" video); simpl;
      [ | destruct (pathlib.with_suffix video (py ".mp4")) as [new_path|];
          simpl; [|discriminate];
          match goal with
          | |- context [fs_rename ?a ?b ?x] =>
            destruct (fs_rename a b x) as [? []]; simpl
          end ]
    | ];
    intros E; injection E as <- <- <- <-; simpl; rewrite ?V;
    repeat split; try congruence; repeat constructor.
Qed.

(** It returns whenever the directories can be made and the video, if
    any, has a name. *)
Lemma prepare_returns (self : t) (destination date_dir : Path)
    (w w0 : World) (l0 : list Event) :
  make_date_dir self destination w = (Ok date_dir, w0, l0) ->
  (forall video, video_path self = Some video -> pathlib.name video <> []) ->
  exists self1 w1 l1,
    prepare self destination w = (Ok (date_dir, self1), w1, l1).
Proof.
  intros D N. unfold prepare. rewrite (bind_ok _ _ _ _ _ _ D).
  destruct (video_path self) as [video|] eqn:V.
  - specialize (N video eq_refl).
    unfold ensure_video_extension, try_except, bind, of_option, log, call,
      ret, raise. rewrite V.
    destruct (has_suffix ".mp4" video); simpl; [eauto|].
    unfold pathlib.with_suffix.
    destruct (pathlib.name video) eqn:E; [congruence|]. simpl.
    match goal with
    | |- context [fs_rename ?a ?b ?x] =>
      destruct (fs_rename a b x) as [? []]; simpl; eauto
    end.
  - simpl. eauto.
Qed.

End Relocation.

Section Conversion.
Context `{Env}.
Import RecordingSet.

Lemma converter_event_stage (l : list Event) :
  Forall converter_event l -> Forall (fun e => stage e = Converting) l.
Proof. apply Forall_impl. now intros e [S _]. Qed.

Lemma converter_call_log (transcript : Path) (w : World) :
  Forall converter_event (snd (converter_call transcript w)).
Proof.
  assert (P : forall l, Forall converter_event (map DownloadProgress l)).
  { intros l. apply Forall_map, Forall_forall. intros x _.
    repeat split; discriminate. }
  unfold converter_call, GdocConverter.init, GdocConverter.convert_to_docx,
    GdocConverter.extract_file_id, try_except, bind, of_option, call, log,
    ret, raise.
  destruct (gdrive_authenticate w) as [wa []]; simpl; [|constructor].
  destruct (pathlib.with_suffix transcript (py ".docx")) as [out|]; simpl;
    [|constructor].
  destruct (gdoc_doc_id transcript wa) as [wb [[[|c id]|]|]]; simpl;
    try (repeat constructor; discriminate).
  destruct (gdrive_export (c :: id) out wb) as [[wc progress] []]; simpl;
    rewrite ?app_nil_r; apply Forall_app; split; auto;
    repeat constructor; discriminate.
Qed.



Lemma convert_transcript_eq (self : t) (transcript : Path) (w : World) :
  transcript_path self = Some transcript ->
  has_suffix ".gdoc" transcript = true ->
  convert_transcript_to_docx self w
  = match converter_call transcript w with
    | (Ok (Some docx), w2, l2) =>
      if fs_exists docx w2
      then (Ok (set_transcript_path self (Some docx), Some docx), w2, l2)
      else (Ok (self, None), w2, l2)
    | (Ok None, w2, l2) => (Ok (self, None), w2, l2)
    | (Raised, w2, l2) => (Ok (self, None), w2, l2 ++ [TranscriptConversionRaised])
    end.
Proof.
  intros T G. unfold convert_transcript_to_docx. rewrite T, G.
  unfold converter_call, try_except, bind, ask, log, ret. cbn [negb].
  destruct (GdocConverter.init w) as [[[[]|] wa] la]; auto.
  destruct (GdocConverter.convert_to_docx transcript wa)
    as [[[[docx|]|] wb] lb]; auto.
  - destruct (fs_exists docx wb); now rewrite !app_nil_r.
  - now rewrite !app_nil_r.
Qed.

(** [convert_transcript_to_docx] on a [.gdoc] transcript never raises;
    it sets the transcript to the converted file if there is one and
    leaves the object as it was otherwise. *)
Lemma convert_transcript_spec (self : t) (transcript : Path) (w : World) :
  transcript_path self = Some transcript ->
  has_suffix ".gdoc" transcript = true ->
  exists w2 l2,
    convert_transcript_to_docx self w
    = (Ok (match converted transcript w with
           | Some docx => (set_transcript_path self (Some docx), Some docx)
           | None => (self, None)
           end), w2, l2)
    /\ Forall converter_event l2.
Proof.
  intros T G. rewrite (convert_transcript_eq self transcript w T G).
  unfold converted. pose proof (converter_call_log transcript w) as L.
  destruct (converter_call transcript w) as [[[[docx|]|] w2] l2]; simpl in L.
  - destruct (fs_exists docx w2); eauto.
  - eauto.
  - eexists _, _. split; [reflexivity|]. apply Forall_app. split; auto.
    repeat constructor; discriminate.
Qed.

Lemma convert_step_spec (self : t) (success : bool) (w : World) :
  exists w2 l2,
    convert_step self success w = (Ok (conversion_outcome self success w), w2, l2)
    /\ Forall (fun e => stage e = Converting) l2
    /\ (In TranscriptConversionFailed l2 <-> conversion_ok self w = false)
    /\ (conversion_runs self = false -> w2 = w).
Proof.
  unfold convert_step, conversion_ok, conversion_runs, conversion_outcome.
  destruct (transcript_path self) as [transcript|] eqn:T.
  2: { exists w, []. repeat split; auto; try constructor;
       simpl; try tauto; discriminate. }
  destruct (has_suffix ".gdoc" transcript) eqn:G.
  2: { exists w, []. repeat split; auto; try constructor;
       simpl; try tauto; discriminate. }
  destruct (convert_transcript_spec self transcript w T G) as (w2 & l2 & E & L).
  unfold bind, log, ret. simpl. rewrite E.
  pose proof (converter_event_stage l2 L) as S.
  assert (NF : ~ In TranscriptConversionFailed l2).
  { intros I. rewrite Forall_forall in L. now destruct (L _ I) as (_ & X & _). }
  destruct (converted transcript w) as [docx|]; simpl.
  - exists w2, (ConvertingTranscript transcript :: l2 ++ []).
    split; auto. rewrite app_nil_r. split; [now repeat constructor|].
    split; [|discriminate]. split; [|discriminate].
    intros [X | I]; [discriminate | contradiction].
  - exists w2, (ConvertingTranscript transcript :: l2 ++ [TranscriptConversionFailed]).
    split; auto. split.
    + constructor; auto. apply Forall_app. split; auto.
    + split; [|discriminate]. split; auto. intros _. right.
      apply in_or_app. right. now left.
Qed.

End Conversion.

Section MoveTo.
Context `{Env}.
Import RecordingSet.

Lemma files_to_move_present (s : t) : files_to_move s = present_members s.
Proof.
  unfold files_to_move, present_members, member_of; simpl.
  now rewrite app_nil_r.
Qed.

Lemma move_files_spec (date_dir : Path) (files : list (Role * Path))
    (success : bool) (w : World) :
  exists w' l,
    move_files date_dir files success w
    = (Ok (success && forallb (fun ok => ok) (move_results date_dir files w)),
       w', l)
    /\ move_attempts l
       = map (fun rp => (fst rp, snd rp, target date_dir (snd rp))) files
    /\ move_failures l = failed_roles files (move_results date_dir files w)
    /\ Forall (fun e => stage e = Relocating) l.
Proof.
  revert success w. induction files as [|[r p] files IH]; intros success w.
  - exists w, []. simpl. rewrite andb_true_r. repeat split; constructor.
  - cbn [move_files move_results]. unfold try_except, bind, log, call, ret.
    fold (target date_dir p).
    destruct (fs_move p (target date_dir p) w) as [w1 []]; cbn -[move_files].
    + destruct (IH success w1) as (w' & l & E & A & F & S). rewrite E.
      eexists _, _. split; [reflexivity|]. cbn.
      fold (move_attempts l) (move_failures l). rewrite A, F.
      repeat split. now repeat constructor.
    + destruct (IH false w1) as (w' & l & E & A & F & S). rewrite E.
      eexists _, _. split; [now rewrite andb_false_r|]. cbn.
      fold (move_attempts l) (move_failures l). rewrite A, F.
      repeat split. now repeat constructor.
Qed.

Lemma cleanup_spec (original_gdoc_path : option Path) (success : bool)
    (w : World) :
  cleanup original_gdoc_path success w
  = match original_gdoc_path with
    | Some gdoc =>
      if success
      then (Ok tt, fst (fs_unlink gdoc w),
            DeletingGdoc gdoc
              :: if snd (fs_unlink gdoc w) then [] else [DeleteGdocFailed])
      else (Ok tt, w, [])
    | None => (Ok tt, w, [])
    end.
Proof.
  unfold cleanup, try_except, bind, log, call, ret.
  destruct original_gdoc_path as [gdoc|]; auto.
  destruct success; auto.
  destruct (fs_unlink gdoc w) as [w1 []]; reflexivity.
Qed.

(** [move_to], once the preparation has returned. *)
Lemma move_to_spec (self self1 : t) (destination date_dir : Path)
    (w w1 : World) (l1 : list Event) :
  prepare self destination w = (Ok (date_dir, self1), w1, l1) ->
  let '(self2, original_gdoc_path, converted_ok) :=
    conversion_outcome self1 true w1 in
  let w2 := world_after_conversion self1 w1 in
  let results := move_results date_dir (present_members self2) w2 in
  let success := converted_ok && forallb (fun ok => ok) results in
  exists l2 w3 l3,
    Forall (fun e => stage e = Converting) l2
    /\ (In TranscriptConversionFailed l2 <-> conversion_ok self1 w1 = false)
    /\ move_attempts l3
       = map (fun rp => (fst rp, snd rp, target date_dir (snd rp)))
             (present_members self2)
    /\ move_failures l3 = failed_roles (present_members self2) results
    /\ Forall (fun e => stage e = Relocating) l3
    /\ Forall (fun e => stage e = Preparing) l1
    /\ move_to self destination w
       = match original_gdoc_path with
         | Some gdoc =>
           if success
           then (Ok (success, self2), fst (fs_unlink gdoc w3),
                 l1 ++ l2 ++ l3 ++ DeletingGdoc gdoc
                   :: if snd (fs_unlink gdoc w3) then [] else [DeleteGdocFailed])
           else (Ok (success, self2), w3, l1 ++ l2 ++ l3)
         | None => (Ok (success, self2), w3, l1 ++ l2 ++ l3)
         end.
Proof.
  intros P. destruct (prepare_spec _ _ _ _ _ _ _ P) as (_ & _ & _ & S1).
  rewrite move_to_stages, (bind_ok _ _ _ _ _ _ P). cbn [fst snd].
  unfold relocate, world_after_conversion.
  destruct (convert_step_spec self1 true w1) as (w2 & l2 & E & S2 & F & _).
  rewrite E. cbn [fst snd].
  destruct (conversion_outcome self1 true w1) as [[self2 g] b].
  rewrite (bind_ok _ _ _ _ _ _ E). cbn iota beta.
  rewrite files_to_move_present.
  destruct (move_files_spec date_dir (present_members self2) b w2)
    as (w3 & l3 & E3 & A & MF & S3).
  rewrite (bind_ok _ _ _ _ _ _ E3).
  exists l2, w3, l3. repeat (split; [assumption|]).
  unfold bind, ret. rewrite cleanup_spec.
  destruct g as [gdoc|]; simpl; rewrite ?app_nil_r; auto.
  destruct (b && forallb (fun ok => ok) (move_results date_dir (present_members self2) w2));
    simpl; rewrite ?app_nil_r; auto.
Qed.

End MoveTo.

(* ================================================================== *)
(** * Properties of the relocation *)
(* ================================================================== *)

Section RelocationProperties.
Context `{Env}.
Import RecordingSet.

Lemma in_move_attempts (l : list Event) (r : Role) (s d : Path) :
  In (r, s, d) (move_attempts l) <-> In (Moving r s d) l.
Proof.
  unfold move_attempts. rewrite in_flat_map. split.
  - intros (e & I & X). destruct e; simpl in X; try tauto.
    destruct X as [X | []]. now injection X as -> -> ->.
  - intros I. exists (Moving r s d). split; auto. now left.
Qed.

Lemma cleaning_log (gdoc : Path) (b : bool) :
  Forall (fun e => stage e = Cleaning)
         (DeletingGdoc gdoc :: if b then [] else [DeleteGdocFailed]).
Proof. destruct b; repeat constructor. Qed.




(** C5.  When the transcript is a [.gdoc] file and the converter fails,
    [move_to] still returns: it returns [False], the transcript of the
    set is the original file, and the failure is in the log. *)
Theorem failed_conversion_fails_the_move (self self1 : t)
    (destination date_dir transcript : Path) (w w1 : World)
    (l1 : list Event) :
  prepare self destination w = (Ok (date_dir, self1), w1, l1) ->
  transcript_path self = Some transcript ->
  has_suffix ".gdoc" transcript = true ->
  converted transcript w1 = None ->
  exists self' w' l,
    move_to self destination w = (Ok (false, self'), w', l)
    /\ transcript_path self' = Some transcript
    /\ In TranscriptConversionFailed l.
Proof.
  intros P T G C. pose proof (move_to_spec _ _ _ _ _ _ _ P) as S.
  destruct (prepare_spec _ _ _ _ _ _ _ P) as (T1 & _). rewrite T in T1.
  assert (O : conversion_ok self1 w1 = false).
  { unfold conversion_ok. now rewrite T1, G, C. }
  unfold conversion_outcome in S. rewrite T1, G, C in S. cbn [andb] in S.
  destruct S as (l2 & w3 & l3 & _ & F & _ & _ & _ & _ & E).
  eexists _, _, _. split; [exact E|]. split; auto.
  apply in_or_app. right. apply in_or_app. left. now apply F.
Qed.



End RelocationProperties.

(* ================================================================== *)
(** * The program on examples *)
(* ================================================================== *)

Section OnExamples.
Import RecordingSet RecordingScanner Examples.
Existing Instance Sim.env.

Example py_marker : py "～Chat" = [0xFF5E; 0x43; 0x68; 0x61; 0x74]%N.
Proof. reflexivity. Qed.

Example suffix_upper_case :
  pathlib.suffix (in_meet "Session A～Recording.MP4") = py ".MP4".
Proof. reflexivity. Qed.

Example suffix_of_hidden_file : pathlib.suffix [py ".bashrc"] = [].
Proof. reflexivity. Qed.

Example with_suffix_replaces :
  pathlib.with_suffix weekly_gdoc (py ".docx")
  = Some (in_meet "Weekly～Gemini によるメモ.docx").
Proof. reflexivity. Qed.

(** Scenario 1: one set, with its video and its chat log. *)
Example scenario_1 :
  fst (fst (scan Sim.MEET session_a_disk)) = Ok [session_a].
Proof. vm_compute. reflexivity. Qed.

(** Scenario 2: a transcript alone gives no set. *)
Example scenario_2 :
  fst (fst (scan Sim.MEET (Sim.disk ["Notes～Gemini によるメモ.gdoc"%string])))
  = Ok [].
Proof. vm_compute. reflexivity. Qed.

(** Scenario 3: the transcript is converted, both files are moved and
    the [.gdoc] file is gone. *)
Example scenario_3 :
  match move_to weekly Sim.BOX weekly_disk with
  | (Ok (success, self'), w', _) =>
    success = true
    /\ transcript_path self' = Some (in_meet "Weekly～Gemini によるメモ.docx")
    /\ Sim.exists_ weekly_gdoc w' = false
  | _ => False
  end.
Proof. vm_compute. auto. Qed.

(** Scenario 4: the video cannot be moved; the chat log is moved all the
    same and the result is a failure. *)
Example scenario_4 :
  let date_dir := pathlib.joinpath Sim.BOX (py "unknown_date") in
  match move_to session_a Sim.BOX
                (lock session_a_disk [in_meet "Session A～Recording.mp4"]) with
  | (Ok (success, _), w', _) =>
    success = false
    /\ Sim.exists_ (in_meet "Session A～Recording.mp4") w' = true
    /\ Sim.exists_ (pathlib.joinpath date_dir (py "Session A～Chat.txt")) w' = true
    /\ Sim.exists_ (in_meet "Session A～Chat.txt") w' = false
  | _ => False
  end.
Proof. vm_compute. auto. Qed.

(** A destination that cannot be created makes [move_to] raise. *)
Example uncreatable_destination :
  fst (fst (move_to session_a NOWHERE (lock session_a_disk [NOWHERE])))
  = Raised.
Proof. vm_compute. reflexivity. Qed.




End OnExamples.

(* ================================================================== *)
(** * Witnesses and counterexamples *)
(* ================================================================== *)

Section Instances.
Import RecordingSet RecordingScanner Examples.
Existing Instance Sim.env.

(** C3 as the specification states it fails on [take_1], [take_0]:
    both qualify as the video of the set ["S"], [take_1] is the smaller
    path, the assembler takes [take_0] because it comes last, and it logs
    nothing; with the two files in the other order it takes [take_1]. *)
Lemma last_seen_wins_counterexample :
  qualifies (py "S") Video take_1 = true
  /\ qualifies (py "S") Video take_0 = true
  /\ pathlib.path_ltb take_1 take_0 = true
  /\ _group_files_into_sets [take_1; take_0] empty_disk
     = (Ok [mk (py "S") (Some take_0) None None None], empty_disk, [])
  /\ _group_files_into_sets [take_0; take_1] empty_disk
     = (Ok [mk (py "S") (Some take_1) None None None], empty_disk, []).
Proof. repeat split; vm_compute; reflexivity. Qed.

(** C7 as the specification states it fails on a directory that does
    not exist: the scan returns normally, and what it returns is what it
    returns for the empty directory [Meet]. *)
Lemma scan_missing_source_counterexample :
  Sim.exists_ NOWHERE empty_disk = false
  /\ scan NOWHERE empty_disk
     = (Ok [], empty_disk, [SourceDirMissing NOWHERE])
  /\ fst (fst (scan Sim.MEET empty_disk)) = Ok []
  /\ fst (fst (scan NOWHERE empty_disk)) <> Raised.
Proof. repeat split; try (vm_compute; reflexivity). discriminate. Qed.

Lemma scan_missing_source_witness :
  Sim.exists_ NOWHERE empty_disk = false
  /\ scan NOWHERE empty_disk
     = (Ok [], empty_disk, [SourceDirMissing NOWHERE])
  /\ forall w', fs_exists NOWHERE w' = true ->
                fs_glob NOWHERE w' = [] ->
                fst (fst (scan NOWHERE w')) = fst (fst (scan NOWHERE empty_disk)).
Proof.
  split; [reflexivity|].
  apply (@scan_missing_source_returns_empty Sim.env NOWHERE empty_disk).
  reflexivity.
Defined.




Lemma failed_conversion_fails_the_move_witness :
  exists date_dir self1 w1 l1,
    prepare weekly Sim.BOX (offline weekly_disk) = (Ok (date_dir, self1), w1, l1)
    /\ transcript_path weekly = Some weekly_gdoc
    /\ has_suffix ".gdoc" weekly_gdoc = true
    /\ converted weekly_gdoc w1 = None
    /\ exists self' w' l,
         move_to weekly Sim.BOX (offline weekly_disk) = (Ok (false, self'), w', l)
         /\ transcript_path self' = Some weekly_gdoc
         /\ In TranscriptConversionFailed l.
Proof.
  eexists _, _, _, _. split; [vm_compute; reflexivity|].
  split; [reflexivity|]. split; [reflexivity|].
  split; [vm_compute; reflexivity|].
  eapply failed_conversion_fails_the_move;
    try (vm_compute; reflexivity).
Defined.



End Instances.


(* ================================================================== *)
(** * Occurrences in strings *)
(* ================================================================== *)

Lemma startswith_iff (p s : str) :
  startswith p s = true <-> exists r, s = p ++ r.
Proof.
  revert s. induction p as [|x p IH]; intros s; simpl.
  - split; eauto.
  - destruct s as [|y s]; simpl.
    + split; [discriminate | intros [r E]; discriminate].
    + rewrite andb_true_iff, N.eqb_eq, IH. split.
      * intros [-> [r ->]]. eauto.
      * intros [r E]. injection E as -> ->. eauto.
Qed.

Lemma contains_iff (g s : str) : contains g s = true <-> occurs_in g s.
Proof.
  unfold occurs_in. induction s as [|c s IH]; simpl.
  - rewrite orb_false_r, startswith_iff. split.
    + intros [r E]. exists [], r. exact E.
    + intros (pre & post & E). destruct pre; [eauto|discriminate].
  - rewrite orb_true_iff, startswith_iff, IH. split.
    + intros [[r E] | (pre & post & E)].
      * exists [], r. exact E.
      * exists (c :: pre), post. simpl. now rewrite E.
    + intros (pre & post & E). destruct pre as [|x pre]; simpl in E.
      * left. eauto.
      * right. injection E as -> ->. eauto.
Qed.

Lemma occurs_in_trans (a b c : str) :
  occurs_in a b -> occurs_in b c -> occurs_in a c.
Proof.
  intros (p1 & q1 & ->) (p2 & q2 & ->).
  exists (p2 ++ p1), (q1 ++ q2). now rewrite <- !app_assoc.
Qed.

Lemma contains_nil_inv (g : str) : contains g [] = true -> g = [].
Proof. destruct g; simpl; [auto | discriminate]. Qed.

Lemma lstrip_split (s : str) :
  exists a, s = a ++ lstrip s /\ forallb is_space a = true.
Proof.
  induction s as [|c s (a & E & F)]; simpl.
  - exists []. auto.
  - destruct (is_space c) eqn:S.
    + exists (c :: a). simpl. rewrite S, F. split; auto. now rewrite <- E.
    + exists []. auto.
Qed.

Lemma lstrip_idem (s : str) : lstrip (lstrip s) = lstrip s.
Proof.
  induction s as [|c s IH]; simpl; auto.
  destruct (is_space c) eqn:S; auto. simpl. now rewrite S.
Qed.

(** Removing spaces at the end of a string leaves its first character
    where it is. *)
Lemma lstrip_rev_keeps_head (c : N) (s : str) :
  is_space c = false ->
  exists s', rev (lstrip (rev (c :: s))) = c :: s'.
Proof.
  intros S. destruct (lstrip_split (rev (c :: s))) as (a & E & F).
  assert (R : c :: s = rev (lstrip (rev (c :: s))) ++ rev a).
  { rewrite <- rev_app_distr, <- E. now rewrite rev_involutive. }
  destruct (rev (lstrip (rev (c :: s)))) as [|x t] eqn:L.
  - simpl in R. assert (I : In c (rev a)) by (rewrite <- R; now left).
    apply in_rev in I. rewrite forallb_forall in F. rewrite (F c I) in S.
    discriminate.
  - simpl in R. injection R as -> _. eauto.
Qed.

Lemma strip_occurs (s : str) : occurs_in (strip s) s.
Proof.
  unfold strip. destruct (lstrip_split s) as (a & E & _).
  destruct (lstrip_split (rev (lstrip s))) as (b & E' & _).
  exists a, (rev b). rewrite E at 1. f_equal.
  rewrite <- rev_app_distr, <- E'. now rewrite rev_involutive.
Qed.

Lemma strip_stripped (s : str) : stripped (strip s).
Proof.
  unfold stripped, strip. split.
  - destruct (lstrip s) as [|c t] eqn:L; [reflexivity|].
    assert (S : is_space c = false).
    { pose proof (lstrip_idem s) as I. rewrite L in I. simpl in I.
      destruct (is_space c) eqn:S; auto.
      destruct (lstrip_split t) as (a & E & _).
      assert (X : length (lstrip t) <= length t).
      { rewrite E at 2. rewrite length_app. lia. }
      rewrite I in X. simpl in X. lia. }
    destruct (lstrip_rev_keeps_head c t S) as (s' & ->).
    simpl. now rewrite S.
  - rewrite rev_involutive. apply lstrip_idem.
Qed.

(* ================================================================== *)
(** * The prefix of a file name *)
(* ================================================================== *)

Section PrefixExtraction.
Import RecordingSet RecordingScanner.

Lemma dots_until_marker_some (s g : str) :
  dots_until_marker s = Some g ->
  exists post, s = g ++ post /\ at_marker post = true.
Proof.
  revert g. induction s as [|c s IH]; intros g; cbn [dots_until_marker].
  - destruct (at_marker []) eqn:A; [|discriminate].
    intros E. injection E as <-. exists []. auto.
  - destruct (at_marker (c :: s)) eqn:A.
    + intros E. injection E as <-. exists (c :: s). auto.
    + destruct (c =? NEWLINE)%N; [discriminate|].
      destruct (dots_until_marker s) as [g'|]; [|discriminate].
      simpl. intros E. injection E as <-.
      destruct (IH g' eq_refl) as (post & -> & M). exists post. auto.
Qed.

Lemma search_prefix_some (s g : str) :
  search_prefix s = Some g ->
  g <> [] /\ exists pre post, s = pre ++ g ++ post /\ at_marker post = true.
Proof.
  induction s as [|c s IH]; simpl; [discriminate|].
  destruct (c =? NEWLINE)%N.
  - intros E. destruct (IH E) as (NE & pre & post & -> & M).
    split; auto. exists (c :: pre), post. auto.
  - destruct (dots_until_marker s) as [g'|] eqn:D; simpl.
    + intros E. injection E as <-.
      destruct (dots_until_marker_some _ _ D) as (post & -> & M).
      split; [discriminate|]. exists [], post. auto.
    + intros E. destruct (IH E) as (NE & pre & post & -> & M).
      split; auto. exists (c :: pre), post. auto.
Qed.

Lemma at_marker_contains (pre post : str) :
  at_marker post = true ->
  contains RECORDING_MARKER (pre ++ post) = true
  \/ contains CHAT_MARKER (pre ++ post) = true.
Proof.
  unfold at_marker. rewrite orb_true_iff, !startswith_iff, !contains_iff.
  intros [[r ->] | [r ->]]; [left | right]; exists pre, r; reflexivity.
Qed.

(** What [_extract_prefix] returns, in the file name. *)
Lemma extract_prefix_spec (filename p : str) :
  _extract_prefix filename = Some p ->
  contains p filename = true
  /\ stripped p
  /\ (contains RECORDING_MARKER filename = true
      \/ contains CHAT_MARKER filename = true).
Proof.
  unfold _extract_prefix.
  destruct (search_prefix filename) as [g|] eqn:S; [|discriminate].
  simpl. intros E. injection E as <-.
  destruct (search_prefix_some _ _ S) as (_ & pre & post & -> & M).
  split; [|split].
  - apply contains_iff. eapply occurs_in_trans; [apply strip_occurs|].
    exists pre, post. reflexivity.
  - apply strip_stripped.
  - rewrite app_assoc. now apply at_marker_contains.
Qed.

(** X1.  A prefix that [_extract_prefix] returns is a piece of the file
    name with no space at either end, and it stands before a marker: so
    the name has a marker, and the test [prefix in file_path.name] of the
    grouping succeeds on the file the prefix comes from. *)
Theorem extract_prefix_occurs (filename p : str) :
  _extract_prefix filename = Some p ->
  contains p filename = true
  /\ stripped p
  /\ (contains RECORDING_MARKER filename = true
      \/ contains CHAT_MARKER filename = true).
Proof. exact (extract_prefix_spec filename p). Qed.

(** X2.  A file name with neither marker has no prefix: the file takes no
    part in the naming of the sets. *)
Theorem extract_prefix_needs_marker (filename : str) :
  contains RECORDING_MARKER filename = false ->
  contains CHAT_MARKER filename = false ->
  _extract_prefix filename = None.
Proof.
  intros R C. unfold _extract_prefix.
  destruct (search_prefix filename) as [g|] eqn:S; auto.
  destruct (search_prefix_some _ _ S) as (_ & pre & post & -> & M).
  rewrite app_assoc in R, C.
  destruct (at_marker_contains (pre ++ g) post M); congruence.
Qed.

End PrefixExtraction.

(* ================================================================== *)
(** * More on the scan *)
(* ================================================================== *)

Section MoreOnScan.
Context `{Env}.
Import RecordingSet RecordingScanner.

Lemma set_add_in (x p : str) (s : list str) :
  In p (set_add x s) <-> p = x \/ In p s.
Proof.
  unfold set_add. destruct (existsb (str_eqb x) s) eqn:E.
  - apply existsb_str_eqb in E. split; auto. intros [-> | I]; auto.
  - rewrite in_app_iff. simpl. split.
    + intros [I | [<- | []]]; auto.
    + intros [-> | I]; auto.
Qed.

(** The prefixes collected are the non-empty prefixes of the files. *)
Lemma collect_prefixes_in (files : list Path) (p : str) :
  In p (collect_prefixes files)
  <-> p <> [] /\ exists F, In F files /\ _extract_prefix (pathlib.name F) = Some p.
Proof.
  unfold collect_prefixes.
  assert (G : forall acc,
             In p (fold_left
                     (fun prefixes file_path =>
                        match _extract_prefix (pathlib.name file_path) with
                        | Some ((_ :: _) as prefix) => set_add prefix prefixes
                        | _ => prefixes
                        end) files acc)
             <-> In p acc
                 \/ (p <> [] /\ exists F, In F files
                                 /\ _extract_prefix (pathlib.name F) = Some p)).
  { induction files as [|f files IH]; intros acc; simpl.
    - split; auto. intros [I | (_ & F & [] & _)]. exact I.
    - rewrite IH.
      destruct (_extract_prefix (pathlib.name f)) as [[|c q]|] eqn:E.
      + split; intros [I | (NE & F & I & X)]; auto.
        * right. split; auto. exists F. auto.
        * destruct I as [<- | I]; [congruence|]. right. split; auto. eauto.
      + rewrite set_add_in. split.
        * intros [[-> | I] | (NE & F & I & X)]; auto.
          -- right. split; [discriminate|]. exists f. auto.
          -- right. split; auto. exists F. auto.
        * intros [I | (NE & F & [<- | I] & X)]; auto.
          -- left. left. congruence.
          -- right. split; auto. eauto.
      + split; intros [I | (NE & F & I & X)]; auto.
        * right. split; auto. exists F. auto.
        * destruct I as [<- | I]; [congruence|]. right. split; auto. eauto. }
  rewrite G. simpl. tauto.
Qed.

Lemma grouped_complete_sets (files : list Path) :
  grouped files = complete_sets files (collect_prefixes files).
Proof.
  unfold grouped. rewrite build_pure_fresh; auto.
  apply collect_prefixes_nodup.
Qed.

Lemma grouped_in (files : list Path) (s : t) :
  In s (grouped files)
  <-> In (prefix s) (collect_prefixes files)
      /\ is_complete s = true /\ s = set_of files (prefix s).
Proof.
  rewrite grouped_complete_sets. unfold complete_sets.
  rewrite in_map_iff. split.
  - intros (p & <- & I). apply filter_In in I as [I C].
    rewrite set_of_prefix. auto.
  - intros (I & C & E). exists (prefix s). split; auto.
    apply filter_In. split; auto. now rewrite <- E.
Qed.



Lemma recording_marker_has_recording (name : str) :
  contains RECORDING_MARKER name = true -> contains (py "Recording") name = true.
Proof.
  rewrite !contains_iff. intros O. eapply occurs_in_trans; [|exact O].
  exists [0xFF5E%N], []. reflexivity.
Qed.

(** The first branch of the chain of [_group_files_into_sets]. *)
Lemma assign_video (prefix : str) (file_path : Path)
    (v tr c : option Path) :
  contains RECORDING_MARKER (pathlib.name file_path) = true
  \/ has_suffix ".mp4" file_path = true ->
  contains prefix (pathlib.name file_path) = true ->
  assign prefix (v, tr, c) file_path = (Some file_path, tr, c)
  /\ classify file_path = Some Video.
Proof.
  intros M C.
  assert (V : has_suffix ".mp4" file_path
              || contains (py "Recording") (pathlib.name file_path) = true).
  { apply orb_true_iff. destruct M as [M | M]; auto.
    right. now apply recording_marker_has_recording. }
  unfold assign, classify. now rewrite C, V.
Qed.

(** X4.  A file whose name has the recording marker, or whose suffix is
    [.mp4], takes the video role of every set whose prefix its name
    contains, whatever else its name and suffix say, and leaves the other
    two roles as they were. *)
Theorem recording_marker_is_video (prefix : str) (file_path : Path)
    (v tr c : option Path) :
  contains RECORDING_MARKER (pathlib.name file_path) = true
  \/ has_suffix ".mp4" file_path = true ->
  contains prefix (pathlib.name file_path) = true ->
  assign prefix (v, tr, c) file_path = (Some file_path, tr, c)
  /\ classify file_path = Some Video.
Proof. exact (assign_video prefix file_path v tr c). Qed.






(** X8.  The list that [scan] returns does not depend on the order in which
    the set of prefixes is walked: building the sets in any order of the
    prefixes and sorting gives the same list. *)
Theorem scan_ignores_set_order (files : list Path) (ps : list str) (w : World) :
  Permutation (collect_prefixes files) ps ->
  exists recording_map log sets log',
    build_sets files ps [] w = (Ok recording_map, w, log)
    /\ _group_files_into_sets files w = (Ok sets, w, log')
    /\ sort (map snd recording_map) = sort sets.
Proof.
  intros P. eexists _, _, _, _.
  split; [apply build_sets_spec|]. split; [apply group_spec|].
  now apply scan_any_set_order.
Qed.

End MoreOnScan.

(* ================================================================== *)
(** * Suffixes *)
(* ================================================================== *)

Lemma rfind_dot_app (stem rest : str) :
  pathlib.rfind_dot rest = None ->
  pathlib.rfind_dot (stem ++ pathlib.DOT :: rest) = Some (length stem).
Proof.
  intros R. induction stem as [|c stem IH]; simpl.
  - now rewrite R.
  - change (pathlib.rfind_dot (stem ++ pathlib.DOT :: rest))
      with (pathlib.rfind_dot (stem ++ pathlib.DOT :: rest)) in IH.
    simpl in IH. now rewrite IH.
Qed.

Lemma name_suffix_app (stem rest : str) :
  stem <> [] -> rest <> [] -> pathlib.rfind_dot rest = None ->
  pathlib.name_suffix (stem ++ pathlib.DOT :: rest) = pathlib.DOT :: rest.
Proof.
  intros NS NR R. unfold pathlib.name_suffix. rewrite (rfind_dot_app _ _ R).
  rewrite length_app. simpl length.
  assert (0 < length stem) by (destruct stem; [congruence | simpl; lia]).
  assert (0 < length rest) by (destruct rest; [congruence | simpl; lia]).
  replace (0 <? length stem) with true by (symmetry; apply Nat.ltb_lt; lia).
  replace (length stem <? length stem + S (length rest) - 1) with true
    by (symmetry; apply Nat.ltb_lt; lia).
  simpl. rewrite skipn_app, skipn_all, Nat.sub_diag. reflexivity.
Qed.

Lemma rfind_dot_bound (n : str) (i : nat) :
  pathlib.rfind_dot n = Some i -> i < length n.
Proof.
  revert i. induction n as [|c n IH]; intros i; simpl; [discriminate|].
  destruct (pathlib.rfind_dot n) as [j|].
  - intros E. injection E as <-. specialize (IH j eq_refl). lia.
  - destruct (c =? pathlib.DOT)%N; [|discriminate].
    intros E. injection E as <-. lia.
Qed.

(** The new name is a non-empty stem followed by the new suffix, in the
    same directory. *)
Lemma with_suffix_name (p q : Path) (sfx : str) :
  pathlib.with_suffix p sfx = Some q ->
  exists stem, stem <> [] /\ pathlib.name q = stem ++ sfx
               /\ removelast q = removelast p.
Proof.
  unfold pathlib.with_suffix.
  destruct (pathlib.name p) as [|c n] eqn:Nm; [discriminate|].
  set (nm := c :: n) in *.
  destruct (pathlib.name_suffix nm) as [|o old] eqn:S;
    intros E; injection E as <-.
  - exists nm. unfold pathlib.name. rewrite last_last, removelast_last.
    repeat split. discriminate.
  - exists (firstn (length nm - length (o :: old)) nm).
    unfold pathlib.name. rewrite last_last, removelast_last.
    repeat split.
    unfold pathlib.name_suffix in S.
    destruct (pathlib.rfind_dot nm) as [i|] eqn:R; [|discriminate].
    destruct ((0 <? i) && (i <? length nm - 1)) eqn:B; [|discriminate].
    apply andb_true_iff in B as [B1 B2].
    apply Nat.ltb_lt in B1. apply Nat.ltb_lt in B2.
    rewrite <- S, length_skipn.
    replace (length nm - (length nm - i)) with i by lia.
    intros Z. apply (f_equal (@length N)) in Z.
    rewrite length_firstn in Z. simpl in Z. lia.
Qed.

Lemma suffix_with_suffix (p q : Path) (rest : str) :
  rest <> [] -> pathlib.rfind_dot rest = None ->
  pathlib.with_suffix p (pathlib.DOT :: rest) = Some q ->
  pathlib.suffix q = pathlib.DOT :: rest.
Proof.
  intros NR R W. destruct (with_suffix_name _ _ _ W) as (stem & NS & E & _).
  unfold pathlib.suffix. rewrite E. now apply name_suffix_app.
Qed.

Section MoreOnRelocation.
Context `{Env}.
Import RecordingSet RecordingScanner.

Lemma with_suffix_mp4 (p q : Path) :
  pathlib.with_suffix p (py ".mp4") = Some q -> has_suffix ".mp4" q = true.
Proof.
  intros W. unfold has_suffix.
  rewrite (suffix_with_suffix p q (py "mp4")); try reflexivity; try discriminate.
  exact W.
Qed.


(** The outcomes of [ensure_video_extension]. *)
Lemma ensure_video_extension_spec (self : t) (w : World) :
  match ensure_video_extension self w with
  | (Ok (self', r), w', l) =>
    r = video_path self'
    /\ prefix self' = prefix self
    /\ transcript_path self' = transcript_path self
    /\ chat_path self' = chat_path self
    /\ date self' = date self
    /\ (video_path self' = video_path self
        \/ exists video,
             video_path self = Some video
             /\ video_path self' = pathlib.with_suffix video (py ".mp4"))
    /\ (In AddExtensionFailed l -> self' = self)
  | (Raised, w', l) =>
    w' = w /\ l = []
    /\ exists video, video_path self = Some video /\ pathlib.name video = []
  end.
Proof.
  unfold ensure_video_extension, try_except, bind, of_option, log, call, ret,
    raise.
  destruct self as [p [video|] tr c d]; simpl.
  2: { repeat split; auto; try (intros []). }
  destruct (has_suffix ".mp4" video); simpl.
  { repeat split; auto; try (intros []). }
  destruct (pathlib.with_suffix video (py ".mp4")) as [new_path|] eqn:W; simpl.
  - destruct (fs_rename video new_path w) as [w1 []]; simpl.
    + repeat split; eauto. intros I. simpl in I. intuition discriminate.
    + repeat split; auto.
  - repeat split; auto. exists video. split; auto.
    unfold pathlib.with_suffix in W.
    destruct (pathlib.name video); [reflexivity | discriminate].
Qed.

(** X9.  Whatever [ensure_video_extension] does, it returns the video path
    the set then has, and leaves every other field of the set alone; the
    video path afterwards is the one before or that path with the suffix
    [.mp4]; when the rename fails the set is as it was; and the call
    raises only for a video path with an empty name, before touching
    anything. *)
Theorem ensure_video_extension_cases (self : t) (w : World) :
  match ensure_video_extension self w with
  | (Ok (self', r), w', l) =>
    r = video_path self'
    /\ prefix self' = prefix self
    /\ transcript_path self' = transcript_path self
    /\ chat_path self' = chat_path self
    /\ date self' = date self
    /\ (video_path self' = video_path self
        \/ exists video,
             video_path self = Some video
             /\ video_path self' = pathlib.with_suffix video (py ".mp4"))
    /\ (In AddExtensionFailed l -> self' = self)
  | (Raised, w', l) =>
    w' = w /\ l = []
    /\ exists video, video_path self = Some video /\ pathlib.name video = []
  end.
Proof. exact (ensure_video_extension_spec self w). Qed.

(** X10.  After a call of [ensure_video_extension] that returned without a
    failed rename, the video of the set has the suffix [.mp4], and a second
    call does nothing at all. *)
Theorem ensure_video_extension_settles (self self' : t) (r : option Path)
    (w w' : World) (l : list Event) :
  ensure_video_extension self w = (Ok (self', r), w', l) ->
  ~ In AddExtensionFailed l ->
  (forall video, video_path self' = Some video -> has_suffix ".mp4" video = true)
  /\ ensure_video_extension self' w' = (Ok (self', r), w', []).
Proof.
  unfold ensure_video_extension, try_except, bind, of_option, log, call, ret,
    raise.
  destruct self as [p [video|] tr c d]; simpl.
  2: { intros E _. injection E as <- <- <- <-. simpl. split; [discriminate | auto]. }
  destruct (has_suffix ".mp4" video) eqn:S; simpl.
  { intros E _. injection E as <- <- <- <-. simpl. rewrite S. split; auto.
    intros v X. injection X as <-. exact S. }
  destruct (pathlib.with_suffix video (py ".mp4")) as [new_path|] eqn:W; simpl;
    [|discriminate].
  destruct (fs_rename video new_path w) as [w1 []]; simpl.
  - intros E _. injection E as <- <- <- <-. simpl.
    rewrite (with_suffix_mp4 _ _ W). split; auto.
    intros v X. injection X as <-. now apply with_suffix_mp4 with (p := video).
  - intros E N. injection E as <- <- <- <-. exfalso. apply N. right. now left.
Qed.

(** X11.  [convert_transcript_to_docx] never raises.  For a transcript that
    is absent or is not a [.gdoc] file it returns [None] and does nothing;
    when it returns a path, a file exists at that path and the path is the
    new transcript of the set; when it returns [None] the set is as it
    was. *)
Theorem convert_transcript_never_raises (self : t) (w : World) :
  exists self' r w' l,
    convert_transcript_to_docx self w = (Ok (self', r), w', l)
    /\ (conversion_runs self = false -> self' = self /\ r = None /\ w' = w /\ l = [])
    /\ (r = None -> self' = self)
    /\ (forall docx, r = Some docx ->
                     self' = set_transcript_path self (Some docx)
                     /\ fs_exists docx w' = true).
Proof.
  unfold conversion_runs.
  destruct (transcript_path self) as [transcript|] eqn:T.
  2: { unfold convert_transcript_to_docx. rewrite T.
       exists self, None, w, []. repeat split; auto; intros; discriminate. }
  destruct (has_suffix ".gdoc" transcript) eqn:G.
  2: { unfold convert_transcript_to_docx. rewrite T, G.
       exists self, None, w, []. repeat split; auto; intros; discriminate. }
  rewrite (convert_transcript_eq self transcript w T G).
  destruct (converter_call transcript w) as [[[[docx|]|] w2] l2];
    [destruct (fs_exists docx w2) eqn:X| |];
    eexists _, _, _, _; (split; [reflexivity|]);
    repeat split; try discriminate;
    try (intros d E; injection E as <-; auto);
    try match goal with
        | E : Some _ = Some _ |- _ => injection E as <-; auto
        end.
Qed.

(** [converted] over the calls that the converter makes. *)
Lemma converted_closed_form (transcript : Path) (w : World) :
  converted transcript w
  = match pathlib.with_suffix transcript (py ".docx") with
    | None => None
    | Some output_path =>
      let '(w1, signed_in) := gdrive_authenticate w in
      if signed_in then
        match gdoc_doc_id transcript w1 with
        | (w2, Some (Some (c :: id))) =>
          match gdrive_export (c :: id) output_path w2 with
          | (w3, _, true) =>
            if fs_exists output_path w3 then Some output_path else None
          | (_, _, false) => None
          end
        | _ => None
        end
      else None
    end.
Proof.
  unfold converted, converter_call, GdocConverter.init,
    GdocConverter.convert_to_docx, GdocConverter.extract_file_id, try_except,
    bind, of_option, call, log, ret, raise.
  destruct (gdrive_authenticate w) as [w1 []]; simpl.
  - destruct (pathlib.with_suffix transcript (py ".docx")) as [out|]; simpl; auto.
    destruct (gdoc_doc_id transcript w1) as [w2 [[[|c id]|]|]]; simpl; auto.
    destruct (gdrive_export (c :: id) out w2) as [[w3 progress] []]; simpl; auto.
  - destruct (pathlib.with_suffix transcript (py ".docx")); auto.
Qed.

(** X12.  On a [.gdoc] transcript, [convert_transcript_to_docx] returns a
    path exactly when the sign-in returns, the [.gdoc] file holds a
    non-empty [doc_id], the export completes and the [.docx] file is there
    afterwards; the path is then the transcript path with the suffix
    [.docx].  In every other case it returns [None]. *)
Theorem convert_transcript_returns_path_when (self : t) (transcript : Path)
    (w : World) :
  transcript_path self = Some transcript ->
  has_suffix ".gdoc" transcript = true ->
  exists self' r w' l,
    convert_transcript_to_docx self w = (Ok (self', r), w', l)
    /\ r = match pathlib.with_suffix transcript (py ".docx") with
           | None => None
           | Some output_path =>
             let '(w1, signed_in) := gdrive_authenticate w in
             if signed_in then
               match gdoc_doc_id transcript w1 with
               | (w2, Some (Some (c :: id))) =>
                 match gdrive_export (c :: id) output_path w2 with
                 | (w3, _, true) =>
                   if fs_exists output_path w3 then Some output_path else None
                 | (_, _, false) => None
                 end
               | _ => None
               end
             else None
           end.
Proof.
  intros T G.
  destruct (convert_transcript_spec self transcript w T G) as (w2 & l2 & E & _).
  pose proof (converted_closed_form transcript w) as CF.
  rewrite E.
  destruct (converted transcript w) as [docx|];
    eexists _, _, _, _; (split; [reflexivity|]); exact CF.
Qed.

(** X13.  [GdocConverter.convert_to_docx] on a path with a name never
    raises.  A path it returns is the given path with the suffix [.docx];
    when the [.gdoc] file gives no [doc_id], or an empty one, it returns
    [None] without calling the export; and it never returns [None] without
    an error in the log. *)
Theorem convert_to_docx_outcomes (gdoc_path : Path) (w : World) :
  pathlib.name gdoc_path <> [] ->
  exists r w' l,
    GdocConverter.convert_to_docx gdoc_path w = (Ok r, w', l)
    /\ (forall output_path,
           r = Some output_path ->
           pathlib.with_suffix gdoc_path (py ".docx") = Some output_path
           /\ In (Converted gdoc_path output_path) l)
    /\ (match snd (gdoc_doc_id gdoc_path w) with
        | Some (Some (_ :: _)) => True
        | _ => r = None /\ w' = fst (gdoc_doc_id gdoc_path w)
               /\ In (FileIdMissing gdoc_path) l
        end)
    /\ (r = None -> exists e, In e l /\ level e = ERROR).
Proof.
  intros NE.
  unfold GdocConverter.convert_to_docx, GdocConverter.extract_file_id,
    try_except, bind, of_option, call, log, ret, raise.
  destruct (pathlib.with_suffix gdoc_path (py ".docx")) as [out|] eqn:W.
  2: { unfold pathlib.with_suffix in W.
       destruct (pathlib.name gdoc_path); [congruence | discriminate]. }
  simpl.
  destruct (gdoc_doc_id gdoc_path w) as [w2 [[[|c id]|]|]]; simpl.
  - eexists _, _, _. split; [reflexivity|].
    split; [intros o E; discriminate|]. split; [simpl; auto|].
    intros _. exists (FileIdMissing gdoc_path). simpl. auto.
  - destruct (gdrive_export (c :: id) out w2) as [[w3 progress] []]; simpl.
    + eexists _, _, _. split; [reflexivity|]. split; [|split; [exact I|discriminate]].
      intros o E. injection E as <-. split; auto.
      rewrite ?app_nil_r. apply in_or_app. right. now left.
    + eexists _, _, _. split; [reflexivity|].
      split; [intros o E; discriminate|]. split; [exact I|].
      intros _. exists ExportFailed. split; auto.
      apply in_or_app. right. now left.
  - eexists _, _, _. split; [reflexivity|].
    split; [intros o E; discriminate|]. split; [simpl; auto|].
    intros _. exists (FileIdMissing gdoc_path). simpl. auto.
  - eexists _, _, _. split; [reflexivity|].
    split; [intros o E; discriminate|]. split; [simpl; auto|].
    intros _. exists GdocParseFailed. simpl. auto.
Qed.

End MoreOnRelocation.

(* ================================================================== *)
(** * More on [move_to] *)
(* ================================================================== *)

Section MoreOnMoveTo.
Context `{Env}.
Import RecordingSet RecordingScanner.

Lemma make_date_dir_value (self : t) (destination date_dir : Path)
    (w w0 : World) (l0 : list Event) :
  make_date_dir self destination w = (Ok date_dir, w0, l0) ->
  date_dir = pathlib.joinpath destination (date_folder self) /\ l0 = [].
Proof.
  unfold make_date_dir, date_folder, bind, ask, call, ret.
  destruct (fs_exists destination w); simpl.
  2: destruct (fs_mkdir destination w) as [wa []]; simpl; [|discriminate].
  all: match goal with
       | |- context [fs_exists ?d ?x] => destruct (fs_exists d x); simpl
       end.
  2, 4: match goal with
        | |- context [fs_mkdir ?d ?x] =>
          destruct (fs_mkdir d x) as [wb []]; simpl; [|discriminate]
        end.
  all: intros E; injection E as <- _ <-; auto.
Qed.

Lemma make_date_dir_raised (self : t) (destination : Path)
    (w w0 : World) (l0 : list Event) :
  make_date_dir self destination w = (Raised, w0, l0) -> l0 = [].
Proof.
  unfold make_date_dir, bind, ask, call, ret.
  destruct (fs_exists destination w); simpl.
  2: destruct (fs_mkdir destination w) as [wa []]; simpl;
     [|intros E; now injection E as _ <-].
  all: match goal with
       | |- context [fs_exists ?d ?x] => destruct (fs_exists d x); simpl
       end; try discriminate.
  all: match goal with
       | |- context [fs_mkdir ?d ?x] =>
         destruct (fs_mkdir d x) as [wb []]; simpl; [discriminate|]
       end; intros E; now injection E as _ <-.
Qed.

(** [prepare] returns when [make_date_dir] does, with its directory. *)
Lemma prepare_inv (self self1 : t) (destination date_dir : Path)
    (w w1 : World) (l1 : list Event) :
  prepare self destination w = (Ok (date_dir, self1), w1, l1) ->
  exists w0,
    make_date_dir self destination w = (Ok date_dir, w0, [])
    /\ date_dir = pathlib.joinpath destination (date_folder self).
Proof.
  unfold prepare, bind at 1.
  destruct (make_date_dir self destination w) as [[[dd|] w0] l0] eqn:D;
    [|discriminate].
  destruct (make_date_dir_value _ _ _ _ _ _ D) as [-> ->].
  unfold bind, ret.
  destruct (video_path self).
  - destruct (ensure_video_extension self w0) as [[[[s r]|] wa] la]; simpl;
      [|discriminate].
    intros E. injection E as <- _ _ _. eauto.
  - simpl. intros E. injection E as <- _ _ _. eauto.
Qed.

(** When [prepare] raises, so has [make_date_dir], or the video has no
    name; nothing is logged. *)
Lemma prepare_raised (self : t) (destination : Path) (w w1 : World)
    (l1 : list Event) :
  prepare self destination w = (Raised, w1, l1) ->
  l1 = []
  /\ (fst (fst (make_date_dir self destination w)) = Raised
      \/ exists video, video_path self = Some video /\ pathlib.name video = []).
Proof.
  unfold prepare, bind at 1.
  destruct (make_date_dir self destination w) as [[[dd|] w0] l0] eqn:D.
  - destruct (make_date_dir_value _ _ _ _ _ _ D) as [-> ->].
    unfold bind, ret. destruct (video_path self) as [video|] eqn:V;
      [|discriminate].
    pose proof (ensure_video_extension_spec self w0) as C.
    destruct (ensure_video_extension self w0) as [[[[s r]|] wa] la]; simpl;
      [discriminate|].
    destruct C as (_ & -> & X). intros E. injection E as _ <-. split; auto.
    right. rewrite <- V. exact X.
  - intros E. injection E as _ <-. split; auto.
    now apply make_date_dir_raised in D.
Qed.

Lemma move_to_ok_prepare (self self' : t) (destination : Path) (success : bool)
    (w w' : World) (l : list Event) :
  move_to self destination w = (Ok (success, self'), w', l) ->
  exists date_dir self1 w1 l1,
    prepare self destination w = (Ok (date_dir, self1), w1, l1).
Proof.
  rewrite move_to_stages. unfold bind.
  destruct (prepare self destination w) as [[[[dd s1]|] w1] l1];
    [eauto | discriminate].
Qed.

(** X14.  Every move that [move_to] announces takes a member of the set,
    under its own name, into the folder of the set under the destination:
    [destination/YYYYMMDD] for a set with a date, [destination/unknown_date]
    for one without. *)
Theorem move_to_layout (self self' : t) (destination : Path) (success : bool)
    (w w' : World) (l : list Event) :
  move_to self destination w = (Ok (success, self'), w', l) ->
  forall r source_path target_path,
    In (Moving r source_path target_path) l ->
    In (r, source_path) (files_to_move self')
    /\ target_path
       = pathlib.joinpath (pathlib.joinpath destination (date_folder self))
                          (pathlib.name source_path).
Proof.
  intros E r src dst I.
  destruct (move_to_ok_prepare _ _ _ _ _ _ _ E) as (dd & self1 & w1 & l1 & P).
  destruct (prepare_inv _ _ _ _ _ _ _ P) as (w0 & _ & DD).
  pose proof (move_to_spec _ _ _ _ _ _ _ P) as S.
  destruct (conversion_outcome self1 true w1) as [[self2 g] b].
  destruct S as (l2 & w3 & l3 & S2 & _ & A & _ & S3 & S1 & E').
  assert (J : In (Moving r src dst) l3 /\ self' = self2).
  { rewrite E in E'.
    assert (K : forall tail, Forall (fun e => stage e = Cleaning) tail ->
                  In (Moving r src dst) (l1 ++ l2 ++ l3 ++ tail) ->
                  In (Moving r src dst) l3).
    { intros tail T X. rewrite !in_app_iff in X.
      destruct X as [X | [X | [X | X]]]; auto.
      - apply (stage_in _ _ _ S1) in X. discriminate.
      - apply (stage_in _ _ _ S2) in X. discriminate.
      - apply (stage_in _ _ _ T) in X. discriminate. }
    destruct g as [gdoc|];
      [destruct (b && forallb (fun ok => ok)
                   (move_results dd (present_members self2)
                                 (world_after_conversion self1 w1)))|];
      injection E' as _ <- _ ->; split; auto.
    - eapply K; [apply cleaning_log | exact I].
    - apply (K []); [constructor | now rewrite app_nil_r].
    - apply (K []); [constructor | now rewrite app_nil_r]. }
  destruct J as [J ->]. apply in_move_attempts in J. rewrite A in J.
  apply in_map_iff in J as ([r0 p0] & X & J). simpl in X.
  injection X as -> -> <-. split.
  - now rewrite files_to_move_present.
  - unfold target. now rewrite DD.
Qed.

(** X15.  [move_to] raises exactly when the folder of the set cannot be
    made or the video path has no name; it has then attempted no
    conversion, no move and no deletion, and logged nothing.  Otherwise it
    returns. *)
Theorem move_to_raises_only_at_start (self : t) (destination : Path) (w : World) :
  match move_to self destination w with
  | (Raised, w', l) =>
    l = []
    /\ (fst (fst (make_date_dir self destination w)) = Raised
        \/ exists video, video_path self = Some video /\ pathlib.name video = [])
  | (Ok _, _, _) =>
    exists w0,
      make_date_dir self destination w
      = (Ok (pathlib.joinpath destination (date_folder self)), w0, [])
  end.
Proof.
  destruct (prepare self destination w) as [[[[dd self1]|] w1] l1] eqn:P.
  - pose proof (move_to_spec _ _ _ _ _ _ _ P) as S.
    destruct (conversion_outcome self1 true w1) as [[self2 g] b].
    destruct S as (l2 & w3 & l3 & _ & _ & _ & _ & _ & _ & E).
    destruct (prepare_inv _ _ _ _ _ _ _ P) as (w0 & D & ->).
    rewrite E. destruct g as [gdoc|];
      [match goal with |- context [if ?c then _ else _] => destruct c end|];
      eauto.
  - rewrite move_to_stages. unfold bind. rewrite P.
    now apply prepare_raised in P.
Qed.

End MoreOnMoveTo.

(* ================================================================== *)
(** * Conversion and relocation together *)
(* ================================================================== *)

Section ConversionAndRelocation.
Context `{Env}.
Import RecordingSet RecordingScanner.

Lemma convert_step_idle (self : t) (success : bool) (w : World) :
  conversion_runs self = false ->
  convert_step self success w = (Ok (self, None, success), w, []).
Proof.
  unfold conversion_runs, convert_step.
  destruct (transcript_path self) as [tr|]; auto.
  now intros ->.
Qed.

(** X16.  For a set whose transcript is absent or is not a [.gdoc] file,
    [move_to] calls neither the converter nor [unlink]: all it logs comes
    from the extension step and from the moves, the set it moves is the one
    the extension step left, and it returns [True] exactly when every move
    returned. *)
Theorem move_to_without_gdoc (self self1 : t) (destination date_dir : Path)
    (w w1 : World) (l1 : list Event) :
  prepare self destination w = (Ok (date_dir, self1), w1, l1) ->
  conversion_runs self = false ->
  exists w' l,
    move_to self destination w
    = (Ok (forallb (fun ok => ok)
                   (move_results date_dir (present_members self1) w1), self1),
       w', l)
    /\ Forall (fun e => stage e = Preparing \/ stage e = Relocating) l.
Proof.
  intros P R.
  destruct (prepare_spec _ _ _ _ _ _ _ P) as (T1 & _ & _ & S1).
  assert (R1 : conversion_runs self1 = false).
  { unfold conversion_runs in *. now rewrite T1. }
  rewrite move_to_stages, (bind_ok _ _ _ _ _ _ P). cbn [fst snd].
  unfold relocate.
  rewrite (bind_ok _ _ _ _ _ _ (convert_step_idle self1 true w1 R1)).
  cbn iota beta. rewrite files_to_move_present.
  destruct (move_files_spec date_dir (present_members self1) true w1)
    as (w3 & l3 & E3 & _ & _ & S3).
  rewrite (bind_ok _ _ _ _ _ _ E3). unfold bind, ret, cleanup. simpl.
  rewrite ?app_nil_r. eexists _, _. split; [reflexivity|].
  apply Forall_app. split; (eapply Forall_impl; [|eassumption]); simpl; auto.
Qed.



(** X18.  [move_to] returns on every set that [scan] has returned, whatever
    the directory that was scanned, as soon as the folder of the set can be
    made: the video of such a set always has a name. *)
Theorem move_to_returns_on_scanned_set (source_dir destination date_dir : Path)
    (w w' w0 : World) (sets : list t) (log l0 : list Event) (s : t) :
  scan source_dir w = (Ok sets, w, log) ->
  In s sets ->
  make_date_dir s destination w' = (Ok date_dir, w0, l0) ->
  exists success self' w'' l,
    move_to s destination w' = (Ok (success, self'), w'', l).
Proof.
  intros E I D.
  assert (G : In s (grouped (fs_glob source_dir w))).
  { rewrite scan_spec in E. destruct (fs_exists source_dir w).
    - injection E as <- _. eapply Permutation_in; [|exact I].
      apply Permutation_sym, sort_perm.
    - injection E as <- _. destruct I. }
  assert (N : forall video, video_path s = Some video -> pathlib.name video <> []).
  { intros video V.
    change (video_path s) with (member_of Video s) in V.
    rewrite (grouped_member _ s Video G) in V.
    apply last_qualifying_in in V as (_ & C & _).
    apply grouped_in in G as (P & _). apply collect_prefixes_in in P as (NE & _).
    intros Z. rewrite Z in C. apply contains_nil_inv in C. contradiction. }
  destruct (prepare_returns _ _ _ _ _ _ D N) as (self1 & w1 & l1 & P).
  pose proof (move_to_spec _ _ _ _ _ _ _ P) as S.
  destruct (conversion_outcome self1 true w1) as [[self2 g] b].
  destruct S as (l2 & w3 & l3 & _ & _ & _ & _ & _ & _ & X).
  rewrite X. destruct g as [gdoc|];
    [match goal with |- context [if ?c then _ else _] => destruct c end|];
    eauto.
Qed.

End ConversionAndRelocation.

(* ================================================================== *)
(** * The folder of a date and the status line *)
(* ================================================================== *)

Lemma length_zero_padded (width : nat) (n : N) :
  length (zero_padded width n) = width.
Proof.
  revert n. induction width as [|width IH]; intros n; simpl; auto.
  rewrite length_app, IH. simpl. lia.
Qed.

Lemma zero_padded_inj (width : nat) (n m : N) :
  (n < 10 ^ N.of_nat width)%N -> (m < 10 ^ N.of_nat width)%N ->
  zero_padded width n = zero_padded width m -> n = m.
Proof.
  revert n m. induction width as [|width IH]; intros n m Bn Bm E.
  - simpl in Bn, Bm. lia.
  - rewrite Nat2N.inj_succ, N.pow_succ_r' in Bn, Bm.
    cbn [zero_padded] in E. apply app_inj_tail in E as [E1 E2].
    assert (n / 10 = m / 10)%N.
    { apply IH; auto; apply N.Div0.div_lt_upper_bound; lia. }
    pose proof (N.div_mod' n 10) as Dn. pose proof (N.div_mod' m 10) as Dm.
    assert (n mod 10 = m mod 10)%N by lia.
    congruence.
Qed.

Lemma app_inj_length {A} (a a' b b' : list A) :
  length a = length a' -> a ++ b = a' ++ b' -> a = a' /\ b = b'.
Proof.
  revert a'. induction a as [|x a IH]; intros [|y a'] L E; simpl in *;
    try discriminate; auto.
  injection E as -> E. destruct (IH a' (eq_add_S _ _ L) E) as [-> ->]. auto.
Qed.

Lemma days_in_month_le (y m : N) : (days_in_month y m <= 31)%N.
Proof.
  unfold days_in_month.
  destruct m as [|[[[[]|[]|]|[[]|[]|]|]|[[[]|[]|]|[[]|[]|]|]|]];
    try destruct (is_leap y); lia.
Qed.

Section Folders.
Import RecordingSet.

(** X19.  Two sets with a date go to the same folder exactly when their
    dates are the same day, and a set with a date never goes to the folder
    [unknown_date]. *)
Theorem date_folder_by_day (a b : t) (da db : datetime) :
  date a = Some da -> date b = Some db ->
  calendar_date da -> calendar_date db ->
  (date_folder a = date_folder b
   <-> year da = year db /\ month da = month db /\ day da = day db)
  /\ date_folder a <> UNKNOWN_DATE.
Proof.
  intros A B Ca Cb. unfold date_folder. rewrite A, B. split.
  - split.
    + unfold strftime_Ymd. intros E.
      apply app_inj_length in E as [E1 E];
        [|now rewrite !length_zero_padded].
      apply app_inj_length in E as [E2 E3];
        [|now rewrite !length_zero_padded].
      destruct Ca as (Ya & Ma & Da & _), Cb as (Yb & Mb & Db & _).
      pose proof (days_in_month_le (year da) (month da)).
      pose proof (days_in_month_le (year db) (month db)).
      repeat split; eapply zero_padded_inj; eauto; simpl; lia.
    + intros (Ey & Em & Ed). unfold strftime_Ymd. now rewrite Ey, Em, Ed.
  - intros E. apply (f_equal (@length N)) in E.
    unfold strftime_Ymd in E. rewrite !length_app, !length_zero_padded in E.
    vm_compute in E. discriminate.
Qed.

(** X20.  The status text tells which members are present and nothing
    else: two sets have the same status exactly when the same members of
    them are present. *)
Theorem get_status_shows_presence (a b : t) :
  get_status a = get_status b <-> presence a = presence b.
Proof.
  destruct a as [pa [va|] [ta|] [ca|] da], b as [pb [vb|] [tb|] [cb|] db];
    unfold get_status, presence, is_complete; cbn [video_path transcript_path chat_path];
    split; intros E; try reflexivity; try discriminate;
    vm_compute in E; discriminate.
Qed.

End Folders.

(* ================================================================== *)
(** * Loading the configuration *)
(* ================================================================== *)

Section Configuration.
Context `{ConfigEnv}.
Import Config.


(** X22.  When [load] returns [False] the path of the file and the
    destinations are as they were, and the failure was logged. *)
Theorem config_load_failure_keeps_destinations (self self' : t)
    (w w' : CWorld) (l : list ConfigEvent) :
  load self w = (Ok (false, self'), w', l) ->
  config_path self' = config_path self
  /\ destinations self' = destinations self
  /\ (In ConfigLoadFailed l \/ In (ConfigNotFound (config_path self)) l).
Proof.
  unfold load, _create_default_config.
  destruct (config_exists (config_path self) w); simpl.
  2: { destruct (mkdir_parent (config_path self) w) as [w1 []];
         [destruct (write_default (config_path self) w1) as [w2 []]|];
         try discriminate.
       intros E. injection E as <- _ <-. simpl. auto. }
  destruct (toml_load (config_path self) w) as [w1 [config_data|]].
  2: { intros E. injection E as <- _ <-. simpl. auto. }
  destruct (dict_get (py "source_dir") config_data) as [[v|it|]|];
    destruct (dict_get (py "destinations") config_data) as [[v'|it'|]|];
    try destruct (read_destinations it') as [d|];
    intros E; try discriminate; injection E as <- _ <-; simpl; auto.
Qed.



(** X25.  On the first run, when the file is missing and can be written,
    [Config(config_path)] writes the default file without reading it back:
    the object has the default source directory and no destination. *)
Theorem config_first_run (config_path : str) (w w1 w2 : CWorld) :
  config_exists (path_of_str config_path) w = false ->
  mkdir_parent (path_of_str config_path) w = (w1, true) ->
  write_default (path_of_str config_path) w1 = (w2, true) ->
  init config_path w
  = (Ok (mk (path_of_str config_path) (path_of_str DEFAULT_SOURCE_DIR) []),
     w2,
     [ConfigNotFound (path_of_str config_path);
      DefaultConfigCreated (path_of_str config_path)]).
Proof.
  intros X M W. unfold init, load, _create_default_config.
  cbn [Config.config_path]. rewrite X. cbn [negb]. rewrite M, W.
  reflexivity.
Qed.

End Configuration.

(* ================================================================== *)
(** * Instances of the further properties *)
(* ================================================================== *)

Section MoreInstances.
Import RecordingSet RecordingScanner Examples MoreExamples.
Existing Instance Sim.env.

Lemma extract_prefix_occurs_witness :
  _extract_prefix (pathlib.name (in_meet "Session A～Recording.mp4"))
  = Some (py "Session A")
  /\ contains (py "Session A") (pathlib.name (in_meet "Session A～Recording.mp4"))
     = true
  /\ stripped (py "Session A")
  /\ (contains RECORDING_MARKER (pathlib.name (in_meet "Session A～Recording.mp4"))
      = true
      \/ contains CHAT_MARKER (pathlib.name (in_meet "Session A～Recording.mp4"))
         = true).
Proof.
  split; [vm_compute; reflexivity|].
  apply extract_prefix_occurs. vm_compute. reflexivity.
Defined.

Lemma extract_prefix_needs_marker_witness :
  contains RECORDING_MARKER plain_name = false
  /\ contains CHAT_MARKER plain_name = false
  /\ _extract_prefix plain_name = None.
Proof.
  split; [reflexivity|]. split; [reflexivity|].
  apply extract_prefix_needs_marker; reflexivity.
Defined.

Lemma recording_marker_is_video_witness :
  contains RECORDING_MARKER (pathlib.name ab_video) = true
  /\ contains (py "A") (pathlib.name ab_video) = true
  /\ assign (py "A") (None, None, Some a_chat) ab_video
     = (Some ab_video, None, Some a_chat)
  /\ classify ab_video = Some Video.
Proof.
  split; [reflexivity|]. split; [reflexivity|].
  apply recording_marker_is_video; [left|]; reflexivity.
Defined.


Lemma scan_ignores_set_order_witness :
  Permutation (collect_prefixes [ab_video; a_chat]) [py "A"; py "AB"]
  /\ exists recording_map log sets log',
       build_sets [ab_video; a_chat] [py "A"; py "AB"] [] empty_disk
       = (Ok recording_map, empty_disk, log)
       /\ _group_files_into_sets [ab_video; a_chat] empty_disk
          = (Ok sets, empty_disk, log')
       /\ sort (map snd recording_map) = sort sets.
Proof.
  assert (P : Permutation (collect_prefixes [ab_video; a_chat]) [py "A"; py "AB"]).
  { change (collect_prefixes [ab_video; a_chat]) with [py "AB"; py "A"].
    apply perm_swap. }
  split; [exact P|].
  apply (@scan_ignores_set_order Sim.env [ab_video; a_chat] [py "A"; py "AB"]
           empty_disk P).
Defined.

Lemma ensure_video_extension_settles_witness :
  exists self' r w' l,
    ensure_video_extension weekly weekly_disk = (Ok (self', r), w', l)
    /\ ~ In AddExtensionFailed l
    /\ (forall video, video_path self' = Some video ->
                      has_suffix ".mp4" video = true)
    /\ ensure_video_extension self' w' = (Ok (self', r), w', []).
Proof.
  eexists _, _, _, _. split; [vm_compute; reflexivity|].
  split.
  - intros I. simpl in I. intuition discriminate.
  - eapply (@ensure_video_extension_settles Sim.env weekly _ _ weekly_disk).
    + vm_compute. reflexivity.
    + intros I. simpl in I. intuition discriminate.
Defined.

Lemma convert_to_docx_outcomes_witness :
  pathlib.name weekly_gdoc <> []
  /\ exists r w' l,
       GdocConverter.convert_to_docx weekly_gdoc weekly_disk = (Ok r, w', l)
       /\ (forall output_path,
              r = Some output_path ->
              pathlib.with_suffix weekly_gdoc (py ".docx") = Some output_path
              /\ In (Converted weekly_gdoc output_path) l)
       /\ (match snd (gdoc_doc_id weekly_gdoc weekly_disk) with
           | Some (Some (_ :: _)) => True
           | _ => r = None /\ w' = fst (gdoc_doc_id weekly_gdoc weekly_disk)
                  /\ In (FileIdMissing weekly_gdoc) l
           end)
       /\ (r = None -> exists e, In e l /\ level e = ERROR).
Proof.
  assert (N : pathlib.name weekly_gdoc <> []) by (vm_compute; discriminate).
  split; [exact N|].
  apply (@convert_to_docx_outcomes Sim.env weekly_gdoc weekly_disk N).
Defined.

Lemma move_to_layout_witness :
  exists success self' w' l,
    move_to session_a Sim.BOX session_a_disk = (Ok (success, self'), w', l)
    /\ forall r source_path target_path,
         In (Moving r source_path target_path) l ->
         In (r, source_path) (files_to_move self')
         /\ target_path
            = pathlib.joinpath
                (pathlib.joinpath Sim.BOX (date_folder session_a))
                (pathlib.name source_path).
Proof.
  eexists _, _, _, _. split; [vm_compute; reflexivity|].
  eapply (@move_to_layout Sim.env session_a _ Sim.BOX _ session_a_disk).
  vm_compute. reflexivity.
Defined.

Lemma move_to_without_gdoc_witness :
  exists date_dir self1 w1 l1,
    prepare session_a Sim.BOX session_a_disk = (Ok (date_dir, self1), w1, l1)
    /\ conversion_runs session_a = false
    /\ exists w' l,
         move_to session_a Sim.BOX session_a_disk
         = (Ok (forallb (fun ok => ok)
                        (move_results date_dir (present_members self1) w1),
                self1), w', l)
         /\ Forall (fun e => stage e = Preparing \/ stage e = Relocating) l.
Proof.
  eexists _, _, _, _. split; [vm_compute; reflexivity|].
  split; [reflexivity|].
  eapply move_to_without_gdoc; [vm_compute; reflexivity | reflexivity].
Defined.


Lemma move_to_returns_on_scanned_set_witness :
  exists sets log s date_dir w0 l0,
    scan Sim.MEET session_a_disk = (Ok sets, session_a_disk, log)
    /\ In s sets
    /\ make_date_dir s Sim.BOX session_a_disk = (Ok date_dir, w0, l0)
    /\ exists success self' w'' l,
         move_to s Sim.BOX session_a_disk = (Ok (success, self'), w'', l).
Proof.
  exists [session_a]. eexists _. exists session_a. eexists _, _, _.
  split; [vm_compute; reflexivity|].
  split; [now left|].
  split; [vm_compute; reflexivity|].
  eapply (@move_to_returns_on_scanned_set Sim.env Sim.MEET Sim.BOX _
            session_a_disk session_a_disk _ [session_a] _ _ session_a).
  - vm_compute. reflexivity.
  - now left.
  - vm_compute. reflexivity.
Defined.

Lemma date_folder_by_day_witness :
  date morning_set = Some morning /\ date evening_set = Some evening
  /\ calendar_date morning /\ calendar_date evening
  /\ (date_folder morning_set = date_folder evening_set
      <-> year morning = year evening /\ month morning = month evening
          /\ day morning = day evening)
  /\ date_folder morning_set <> UNKNOWN_DATE.
Proof.
  assert (Cm : calendar_date morning) by (unfold calendar_date; simpl; lia).
  assert (Ce : calendar_date evening) by (unfold calendar_date; simpl; lia).
  split; [reflexivity|]. split; [reflexivity|].
  split; [exact Cm|]. split; [exact Ce|].
  apply (date_folder_by_day morning_set evening_set morning evening
           eq_refl eq_refl Cm Ce).
Defined.

Lemma convert_transcript_returns_path_when_witness :
  transcript_path weekly = Some weekly_gdoc
  /\ has_suffix ".gdoc" weekly_gdoc = true
  /\ exists self' r w' l,
       convert_transcript_to_docx weekly weekly_disk = (Ok (self', r), w', l)
       /\ r = Some (in_meet "Weekly～Gemini によるメモ.docx").
Proof.
  split; [reflexivity|]. split; [vm_compute; reflexivity|].
  destruct (@convert_transcript_returns_path_when Sim.env weekly weekly_gdoc
              weekly_disk eq_refl)
    as (self' & r & w' & l & E & R).
  - vm_compute. reflexivity.
  - exists self', r, w', l. split; [exact E|].
    rewrite R. vm_compute. reflexivity.
Defined.

End MoreInstances.

Section ConfigInstances.
Existing Instance SimConfig.config_env.
Import Config SimConfig.

Lemma config_load_failure_keeps_destinations_witness :
  load start half_good
  = (Ok (false, mk [py "conf.toml"] [py "/data/meet"] []), half_good,
     [ConfigLoadFailed])
  /\ config_path (mk [py "conf.toml"] [py "/data/meet"] []) = config_path start
  /\ destinations (mk [py "conf.toml"] [py "/data/meet"] []) = destinations start
  /\ (In ConfigLoadFailed [ConfigLoadFailed]
      \/ In (ConfigNotFound (config_path start)) [ConfigLoadFailed]).
Proof.
  split; [vm_compute; reflexivity|].
  apply (@config_load_failure_keeps_destinations SimConfig.config_env start _
           half_good half_good [ConfigLoadFailed]).
  vm_compute. reflexivity.
Defined.


Lemma config_first_run_witness :
  config_exists (path_of_str (py "conf.toml")) first_run = false
  /\ init (py "conf.toml") first_run
     = (Ok (mk (path_of_str (py "conf.toml"))
               (path_of_str DEFAULT_SOURCE_DIR) []),
        mk_world true None true,
        [ConfigNotFound (path_of_str (py "conf.toml"));
         DefaultConfigCreated (path_of_str (py "conf.toml"))]).
Proof.
  split; [reflexivity|].
  apply (@config_first_run SimConfig.config_env (py "conf.toml") first_run first_run
           (mk_world true None true)); reflexivity.
Defined.

End ConfigInstances.
